(** * SLCSP calculator: a shallow embedding of [slcsp_calculator.py]

    The program loads three CSV files with pandas, keeps the Silver plans,
    joins them to the ZIP-to-rate-area mapping, computes per (state,
    rate_area) group the second lowest distinct rate, joins that back to the
    mapping and resolves every target ZIP code to a formatted rate or to the
    empty string.

    The embedding has two layers.  The loader models [pd.read_csv] on
    tokenised CSV files, with pandas' column-wise dtype inference.  The
    pipeline is modelled on frames that carry the columns the program reads,
    as typed rows; the methods of [SLCSPCalculator] are state transformers
    over the object's attributes, in a state-and-exception monad. *)

From Stdlib Require Import QArith Qcanon Ascii DecimalString DecimalN DecimalZ.
From stdpp Require Import base numbers list sorting strings.

Local Open Scope Z_scope.

(** ** Exceptions *)

Inductive exn :=
  | KeyError (label : string)
  | IndexError
  | ValueError
  | AttributeError (name : string)
  | MergeError
  | EmptyDataError
  | ParserError.

Inductive result (A : Type) :=
  | Ok (a : A)
  | Raise (e : exn).
Arguments Ok {A} a.
Arguments Raise {A} e.

Definition result_bind {A B} (m : result A) (k : A → result B) : result B :=
  match m with
  | Ok a => k a
  | Raise e => Raise e
  end.

(** [Series.apply(f)]: [f] is called on the elements in order and the first
    exception aborts the whole call. *)
Fixpoint series_apply {A B} (f : A → result B) (l : list A) : result (list B) :=
  match l with
  | [] => Ok []
  | x :: l' =>
      result_bind (f x) (λ y, result_bind (series_apply f l') (λ ys, Ok (y :: ys)))
  end.

(** ** Numbers

    A [float64] cell is either NaN or a finite double, which is represented
    by its exact rational value.  Equality and order of finite doubles are
    those of their values. *)

Definition float64 := option Qc.
Definition NaN : float64 := None.
Definition isna (v : float64) : bool :=
  match v with
  | None => true
  | Some _ => false
  end.

(** Decimal numerals, as Python's [str(int)] prints them. *)
Definition str_of_int (z : Z) : string := NilZero.string_of_int (Z.to_int z).

Definition digit_char (d : Z) : ascii :=
  ascii_of_nat (48 + Z.to_nat d).

(** [round(h)] to the nearest integer, ties to the even one, of the
    rational [n / d] (with [0 <= n], [0 < d]). *)
Definition round_half_even (n d : Z) : Z :=
  let f := n `div` d in
  let r := n `mod` d in
  if decide (2 * r < d) then f
  else if decide (d < 2 * r) then f + 1
  else if Z.even f then f else f + 1.

(** [f"{rate:.2f}"] on a finite double: the exact value is rounded to
    hundredths (ties to even, as CPython's correctly rounded [dtoa] does)
    and printed with its sign, integer part and two fractional digits. *)
Definition format_2f_abs (q : Q) : string :=
  let h := round_half_even (Z.abs (Qnum q) * 100) (Z.pos (Qden q)) in
  str_of_int (h `div` 100)
    +:+ "." +:+ String (digit_char ((h `mod` 100) `div` 10))
                  (String (digit_char (h `mod` 10)) "").

Definition format_2f (v : float64) : string :=
  match v with
  | None => "nan"
  | Some q =>
      if decide (Qnum (this q) < 0) then "-" +:+ format_2f_abs (this q)
      else format_2f_abs (this q)
  end.

(** ** The relations *)

Record Plan := {
  plan_state : string;
  plan_rate_area : Z;
  metal_level : string;
  rate : Qc
}.

Record ZipEntry := {
  zipcode : Z;
  state : string;
  rate_area : Z
}.

Definition RateAreaKey : Type := string * Z.

Definition plan_key (p : Plan) : RateAreaKey := (plan_state p, plan_rate_area p).
Definition zip_key (e : ZipEntry) : RateAreaKey := (state e, rate_area e).

(** [zipcode_data] starts with the columns of the mapping file; every
    [merge_zip_and_rate] appends a [float64] column.  [zf_columns] names the
    appended columns and every row carries their cells in the same order. *)
Definition ZipRow : Type := ZipEntry * list float64.

Record ZipFrame := {
  zf_columns : list string;
  zf_rows : list ZipRow
}.

(** A row of [merged_data]: a mapping row joined to a Silver plan with the
    same (state, rate_area). *)
Definition MergedRow : Type := ZipRow * Plan.

Definition merged_key (r : MergedRow) : RateAreaKey := plan_key r.2.

(** The frame computed by [calculate_second_lowest_rates].  When every group
    yields [None], [DataFrameGroupBy.apply] returns an empty [DataFrame()]
    with no columns at all (pandas GH 9684, [_wrap_applied_output]);
    [reset_index] and [rename] then leave a frame that has neither the key
    columns nor [second_lowest_rate].  Otherwise the frame has one row per
    group, with NaN where the group yielded [None]. *)
Inductive RateFrame :=
  | RatesByArea (rows : list (RateAreaKey * float64))
  | NoColumns.

(** A row of [slcsp_data].  The [rate] column is empty (NaN) when loaded and
    holds [str] objects after [determine_rate]. *)
Record TargetZip := {
  target_zipcode : Z;
  target_rate : option string
}.

(** ** pandas operations *)

(** [Series.drop_duplicates()], keeping first occurrences in order. *)
Fixpoint drop_duplicates {A} `{EqDecision A} (l : list A) : list A :=
  match l with
  | [] => []
  | x :: l' => x :: filter (λ y, y ≠ x) (drop_duplicates l')
  end.

(** [Series.nunique()] on a column without NaN. *)
Definition nunique {A} `{EqDecision A} (l : list A) : nat :=
  length (drop_duplicates l).

(** [Series.nsmallest(n)]: the [n] smallest values in ascending order. *)
Definition nsmallest (n : nat) (l : list Qc) : list Qc :=
  take n (merge_sort Qcle l).

(** [pd.merge(left, right, on=['state', 'rate_area'])], an inner join: every
    pair of a left and a right row with equal keys.  pandas versions differ
    in the order of the joined rows; the model uses the left-major one. *)
Definition merge_inner (left : list ZipRow) (right : list Plan) : list MergedRow :=
  l ← left; (λ p, (l, p)) <$> filter (λ p, plan_key p = zip_key l.1) right.

(** [groupby(['state', 'rate_area'])]: the distinct keys, each with its rows.
    pandas lists the groups by sorted key; here they are in order of first
    appearance, the only consumer being a join on the key. *)
Definition groupby (df : list MergedRow) : list (RateAreaKey * list MergedRow) :=
  (λ k, (k, filter (λ r, merged_key r = k) df)) <$> drop_duplicates (merged_key <$> df).

(** The right-hand matches of a left join on the key. *)
Definition matches (k : RateAreaKey) (right : list (RateAreaKey * float64)) : list float64 :=
  snd <$> filter (λ r, r.1 = k) right.

(** The cells a left row gets from a left join: one per match, or a single
    NaN when nothing matches. *)
Definition joined_cells (k : RateAreaKey) (right : list (RateAreaKey * float64))
  : list float64 :=
  match matches k right with
  | [] => [NaN]
  | vs => vs
  end.

Definition left_join (left : list ZipRow) (right : list (RateAreaKey * float64))
  : list ZipRow :=
  r ← left; (λ v, (r.1, r.2 ++ [v])) <$> joined_cells (zip_key r.1) right.

(** [pd.merge(zipcode_data, second_lowest_rates, on=[...], how='left')]:
    left rows in order, one copy per match and one copy with NaN when
    nothing matches.  A column name present on both sides gets the suffixes
    [_x] and [_y], and pandas refuses a suffixed name that already exists. *)
Definition merge_left (left : ZipFrame) (right : RateFrame) : result ZipFrame :=
  match right with
  | NoColumns => Raise (KeyError "state")
  | RatesByArea rows =>
      let joined := left_join (zf_rows left) rows in
      if decide ("second_lowest_rate" ∈ zf_columns left) then
        if decide ("second_lowest_rate_x" ∈ zf_columns left
                   ∨ "second_lowest_rate_y" ∈ zf_columns left)
        then Raise MergeError
        else Ok {| zf_columns :=
                     ((λ c, if decide (c = "second_lowest_rate")
                            then "second_lowest_rate_x" else c) <$> zf_columns left)
                     ++ ["second_lowest_rate_y"];
                   zf_rows := joined |}
      else Ok {| zf_columns := zf_columns left ++ ["second_lowest_rate"];
                 zf_rows := joined |}
  end.

(** [frame[label]] for one of the appended columns. *)
Fixpoint index_of (label : string) (columns : list string) : option nat :=
  match columns with
  | [] => None
  | c :: cs => if decide (c = label) then Some O else S <$> index_of label cs
  end.

Definition getitem (columns : list string) (rows : list ZipRow) (label : string)
  : result (list float64) :=
  match index_of label columns with
  | None => Raise (KeyError label)
  | Some i => Ok ((λ r, default NaN (r.2 !! i)) <$> rows)
  end.

(** ** The object and its methods *)

(** The attributes of an [SLCSPCalculator].  The first three are set by
    [__init__]; the others do not exist until the stage that assigns them
    has run. *)
Record SLCSPCalculator := {
  plans_data : list Plan;
  zipcode_data : ZipFrame;
  slcsp_data : list TargetZip;
  silver_plans : option (list Plan);
  merged_data : option (list MergedRow);
  second_lowest_rates : option RateFrame
}.

(** A method runs on [self], may rebind attributes, and returns or raises;
    the attributes bound before an exception stay bound. *)
Definition method (A : Type) : Type := SLCSPCalculator → result A * SLCSPCalculator.

Definition ret {A} (a : A) : method A := λ self, (Ok a, self).

Definition bind {A B} (m : method A) (k : A → method B) : method B :=
  λ self,
    match m self with
    | (Ok a, self') => k a self'
    | (Raise e, self') => (Raise e, self')
    end.

Notation "'let!' x := m 'in' k" := (bind m (λ x, k))
  (at level 10, x name, m at level 100, k at level 200).
Notation "m >>> k" := (bind m (λ _, k))
  (at level 65, right associativity).

Definition lift {A} (r : result A) : method A := λ self, (r, self).

(** Reading an attribute that may not have been assigned yet. *)
Definition getattr {A} (name : string) (field : SLCSPCalculator → option A) : method A :=
  λ self,
    match field self with
    | Some a => (Ok a, self)
    | None => (Raise (AttributeError name), self)
    end.

Definition set_silver_plans (v : list Plan) : method unit := λ self,
  (Ok (), {| plans_data := plans_data self; zipcode_data := zipcode_data self;
             slcsp_data := slcsp_data self; silver_plans := Some v;
             merged_data := merged_data self;
             second_lowest_rates := second_lowest_rates self |}).

Definition set_merged_data (v : list MergedRow) : method unit := λ self,
  (Ok (), {| plans_data := plans_data self; zipcode_data := zipcode_data self;
             slcsp_data := slcsp_data self; silver_plans := silver_plans self;
             merged_data := Some v;
             second_lowest_rates := second_lowest_rates self |}).

Definition set_second_lowest_rates (v : RateFrame) : method unit := λ self,
  (Ok (), {| plans_data := plans_data self; zipcode_data := zipcode_data self;
             slcsp_data := slcsp_data self; silver_plans := silver_plans self;
             merged_data := merged_data self;
             second_lowest_rates := Some v |}).

Definition set_zipcode_data (v : ZipFrame) : method unit := λ self,
  (Ok (), {| plans_data := plans_data self; zipcode_data := v;
             slcsp_data := slcsp_data self; silver_plans := silver_plans self;
             merged_data := merged_data self;
             second_lowest_rates := second_lowest_rates self |}).

Definition set_slcsp_data (v : list TargetZip) : method unit := λ self,
  (Ok (), {| plans_data := plans_data self; zipcode_data := zipcode_data self;
             slcsp_data := v; silver_plans := silver_plans self;
             merged_data := merged_data self;
             second_lowest_rates := second_lowest_rates self |}).

(** [filter_silver_plans], line 34. *)
Definition filter_silver_plans : method unit := λ self,
  set_silver_plans (filter (λ p, metal_level p = "Silver") (plans_data self)) self.

(** [merge_data], line 40. *)
Definition merge_data : method unit :=
  let! silver := getattr "silver_plans" silver_plans in
  λ self, set_merged_data (merge_inner (zf_rows (zipcode_data self)) silver) self.

(** [df['rate']] on a frame of joined rows. *)
Definition rate_column (df : list MergedRow) : list Qc := (λ r, rate r.2) <$> df.

(** [get_second_lowest_rate], lines 60-63.  [None] is Python's [None]. *)
Definition get_second_lowest_rate (df : list MergedRow) : result (option Qc) :=
  let unique_rates := drop_duplicates (rate_column df) in
  if decide (1 < length unique_rates)%nat then
    match nsmallest 2 unique_rates !! 1%nat with
    | Some r => Ok (Some r)
    | None => Raise IndexError
    end
  else Ok None.

(** [groupby([...]).apply(get_second_lowest_rate).reset_index().rename(...)],
    lines 46-48.  When every group's value is [None], the result has no key
    columns.

    With no group at all, that is when [merged_data] has no row, the
    outcome depends on the pandas release, and the repository fixes none.
    Up to pandas 2, [apply] returns an empty frame that still has the
    columns of [merged_data], and [reset_index] raises [ValueError] because
    it cannot insert the key columns a second time; this is the case
    written here.  From pandas 3 on the expression returns an empty frame
    and the run goes on.  On a [merged_data] with at least one row the
    releases agree; the properties of whole runs below are stated for such
    inputs wherever this case would decide the outcome. *)
Definition groupby_apply (df : list MergedRow) : result RateFrame :=
  let groups := groupby df in
  result_bind (series_apply (λ g, get_second_lowest_rate g.2) groups) (λ values,
    match values with
    | [] => Raise ValueError
    | _ =>
        if forallb isna values then Ok NoColumns
        else Ok (RatesByArea (zip (fst <$> groups) values))
    end).

Definition calculate_second_lowest_rates : method unit :=
  let! merged := getattr "merged_data" merged_data in
  let! rates := lift (groupby_apply merged) in
  set_second_lowest_rates rates.

(** [merge_zip_and_rate], line 70. *)
Definition merge_zip_and_rate : method unit :=
  let! rates := getattr "second_lowest_rates" second_lowest_rates in
  λ self,
    (let! merged := lift (merge_left (zipcode_data self) rates) in
     set_zipcode_data merged) self.

(** What [get_rate] returns: the empty string or a number. *)
Inductive resolved :=
  | Blank
  | Rate (v : float64).

(** [get_rate], lines 90-93.  [or] evaluates its right operand, and with it
    [zipcode_data['second_lowest_rate']], only when the left one is false. *)
Definition get_rate (self : SLCSPCalculator) (zipcode' : Z) : result resolved :=
  let columns := zf_columns (zipcode_data self) in
  let zipcode_data' := filter (λ r : ZipRow, zipcode r.1 = zipcode') (zf_rows (zipcode_data self)) in
  if decide (1 < nunique ((λ r : ZipRow, rate_area r.1) <$> zipcode_data'))%nat then Ok Blank
  else
    result_bind (getitem columns zipcode_data' "second_lowest_rate") (λ rates,
      if existsb isna rates then Ok Blank
      else
        match rates !! 0%nat with
        | Some v => Ok (Rate v)
        | None => Raise IndexError
        end).

(** The lambda of line 78. *)
Definition format_rate (r : resolved) : string :=
  match r with
  | Blank => ""
  | Rate v => format_2f v
  end.

(** The row of [slcsp_data] once its [rate] cell is assigned. *)
Definition rated (t : TargetZip) (r : resolved) : TargetZip :=
  {| target_zipcode := target_zipcode t; target_rate := Some (format_rate r) |}.

(** [determine_rate], lines 77-78.  The column assigned by line 77 is
    replaced by line 78, which cannot raise. *)
Definition determine_rate : method unit := λ self,
  (let! rates := lift (series_apply (get_rate self) (target_zipcode <$> slcsp_data self)) in
   set_slcsp_data (zip_with rated (slcsp_data self) rates)) self.

(** [calculate_slcsp], lines 24-28. *)
Definition calculate_slcsp : method unit :=
  filter_silver_plans >>>
  merge_data >>>
  calculate_second_lowest_rates >>>
  merge_zip_and_rate >>>
  determine_rate.

(** [DataFrame.to_csv(index=False)] on [slcsp_data]: a header line and one
    line per row; NaN is written as an empty field. *)
Definition newline : string := String (ascii_of_nat 10) "".

Definition csv_line (t : TargetZip) : string :=
  str_of_int (target_zipcode t) +:+ "," +:+ default "" (target_rate t) +:+ newline.

Definition to_csv (df : list TargetZip) : string :=
  "zipcode,rate" +:+ newline +:+ foldr (λ t s, csv_line t +:+ s) "" df.

(** [print_slcsp], line 99: what is written to standard output. *)
Definition print_slcsp (self : SLCSPCalculator) : string :=
  to_csv (slcsp_data self) +:+ newline.

(** ** The loader: [pd.read_csv]

    A file is given tokenised: the names of its header line and, for every
    line after it, the record of its fields.  A field is its text, without
    surrounding blanks, together with the double it denotes when the text
    is a floating-point literal.  A line without characters, or with blanks
    only, is a record without fields or with a single empty field. *)

Record field := {
  text : string;
  real : option Qc
}.

Record Table := {
  header : list string;
  records : list (list field)
}.

Inductive Series :=
  | Int64 (values : list Z)
  | Float64 (values : list float64)
  | Object (values : list (option string)).

Definition DataFrame : Type := list (string * Series).

(** The texts [read_csv] takes for a missing value by default. *)
Definition na_values : list string :=
  [ ""; "#N/A"; "#N/A N/A"; "#NA"; "-1.#IND"; "-1.#QNAN"; "-NaN"; "-nan";
    "1.#IND"; "1.#QNAN"; "<NA>"; "N/A"; "NA"; "NULL"; "NaN"; "None"; "n/a";
    "nan"; "null" ].

Definition int64_min : Z := - 2 ^ 63.
Definition int64_max : Z := 2 ^ 63 - 1.

(** The integer converter: an optional sign and decimal digits, leading
    zeros included, within the range of [int64]. *)
Definition digits_to_int64 (sign : Z) (digits : string) : option Z :=
  d ← NilZero.uint_of_string digits;
  let z := sign * Z.of_uint d in
  if decide (int64_min ≤ z ≤ int64_max) then Some z else None.

Definition str_to_int64 (s : string) : option Z :=
  match s with
  | String "-" s' => digits_to_int64 (-1) s'
  | String "+" s' => digits_to_int64 1 s'
  | _ => digits_to_int64 1 s
  end.

Definition to_int64 (f : field) : option Z :=
  if decide (text f ∈ na_values) then None else str_to_int64 (text f).

Definition to_float64 (f : field) : option float64 :=
  if decide (text f ∈ na_values) then Some NaN
  else
    match str_to_int64 (text f) with
    | Some z => Some (Some (Qc_of_Z z))
    | None => Some <$> real f
    end.

Definition to_object (f : field) : option string :=
  if decide (text f ∈ na_values) then None else Some (text f).

(** Column-wise dtype inference: [int64] when every field is an integer,
    else [float64] when every field is a number or missing, else [object].
    A column without rows is an [object] column.  (pandas also recognises
    columns of booleans; they are kept as text here.) *)
Definition infer_dtype (fields : list field) : Series :=
  match fields with
  | [] => Object []
  | _ =>
      match mapM to_int64 fields with
      | Some zs => Int64 zs
      | None =>
          match mapM to_float64 fields with
          | Some vs => Float64 vs
          | None => Object (to_object <$> fields)
          end
      end
  end.

(** The fields of column [i]; a record that ends early is filled with
    missing values. *)
Definition column_fields (i : nat) (rs : list (list field)) : list field :=
  (λ r, default {| text := ""; real := None |} (r !! i)) <$> rs.

(** A blank line.  [read_csv] skips it ([skip_blank_lines] is on by
    default): it does not become a row of missing values. *)
Definition blank_line (r : list field) : bool :=
  match r with
  | [] => true
  | [f] => bool_decide (text f = "")
  | _ => false
  end.

(** The lines that become rows. *)
Definition data_lines (file : Table) : list (list field) :=
  filter (λ r, blank_line r = false) (records file).

(** The number of fields of a row: that of the header, unless the first row
    has more fields.  The leading fields in excess are then the index of
    the frame and not a column of it, in every row. *)
Definition table_width (file : Table) : nat :=
  match data_lines file with
  | [] => length (header file)
  | r :: _ => length (header file) `max` length r
  end.

Definition index_fields (file : Table) : nat :=
  (table_width file - length (header file))%nat.

(** The labels of the columns.  An empty name of column [i] is read as
    [Unnamed: i], and a name that occurred [k] times before gets the suffix
    [.k].  (When a label made this way is the name of another column,
    pandas renames again, differently from release to release; that is not
    modelled.) *)
Definition unnamed (names : list string) : list string :=
  imap (λ i name, if decide (name = "") then "Unnamed: " +:+ str_of_int (Z.of_nat i)
                  else name) names.

Fixpoint mangle_dupe_cols (seen names : list string) : list string :=
  match names with
  | [] => []
  | name :: names' =>
      let count := length (filter (λ s, s = name) seen) in
      (if decide (count = 0%nat) then name
       else name +:+ "." +:+ str_of_int (Z.of_nat count))
        :: mangle_dupe_cols (name :: seen) names'
  end.

Definition column_labels (file : Table) : list string :=
  mangle_dupe_cols [] (unnamed (header file)).

(** [pd.read_csv(file)] with default arguments.  It refuses a file without
    a header line, and a row with more fields than the first row and the
    header have; a row with fewer fields is filled with missing values.  It
    checks nothing else: neither which columns there are nor what their
    fields hold. *)
Definition read_csv (file : Table) : result DataFrame :=
  match header file with
  | [] => Raise EmptyDataError
  | _ =>
      if existsb (λ r, bool_decide (table_width file < length r)%nat) (data_lines file)
      then Raise ParserError
      else Ok (imap (λ i label,
                       (label, infer_dtype (column_fields (index_fields file + i)
                                              (data_lines file))))
                 (column_labels file))
  end.

(** [frame[label]] *)
Fixpoint frame_getitem (df : DataFrame) (label : string) : result Series :=
  match df with
  | [] => Raise (KeyError label)
  | (c, s) :: df' => if decide (c = label) then Ok s else frame_getitem df' label
  end.

(** The three frames bound by [__init__], lines 15-17. *)
Record Loaded := {
  plans_frame : DataFrame;
  zips_frame : DataFrame;
  slcsp_frame : DataFrame
}.

Definition __init__ (plans_file zips_file slcsp_file : Table) : result Loaded :=
  result_bind (read_csv plans_file) (λ plans,
  result_bind (read_csv zips_file) (λ zips,
  result_bind (read_csv slcsp_file) (λ slcsp,
    Ok {| plans_frame := plans; zips_frame := zips; slcsp_frame := slcsp |}))).

(** *** From loaded frames to the relations of the pipeline

    The pipeline above is modelled for frames that fit the schema of the
    input files: [state] and [metal_level] are text, [rate_area] and
    [zipcode] are [int64], [rate] is numeric without missing values, and the
    target file has the columns [zipcode] and (empty) [rate].  [typed]
    reads a loaded object as such relations, and is undefined on frames
    outside the schema. *)

Definition as_int64 (s : Series) : option (list Z) :=
  match s with
  | Int64 zs => Some zs
  | Object [] => Some []
  | _ => None
  end.

Definition as_text (s : Series) : option (list string) :=
  match s with
  | Object vs => mapM id vs
  | _ => None
  end.

Definition as_number (s : Series) : option (list Qc) :=
  match s with
  | Int64 zs => Some (Qc_of_Z <$> zs)
  | Float64 vs => mapM id vs
  | Object [] => Some []
  | _ => None
  end.

Definition as_empty (s : Series) : option unit :=
  match s with
  | Float64 vs => if forallb isna vs then Some () else None
  | Object [] => Some ()
  | _ => None
  end.

Definition lookup_column (df : DataFrame) (label : string) : option Series :=
  match frame_getitem df label with
  | Ok s => Some s
  | Raise _ => None
  end.

Definition column_as {A} (df : DataFrame) (label : string) (conv : Series → option A)
  : option A :=
  lookup_column df label ≫= conv.

Definition typed_plans (df : DataFrame) : option (list Plan) :=
  states ← column_as df "state" as_text;
  areas ← column_as df "rate_area" as_int64;
  levels ← column_as df "metal_level" as_text;
  rates ← column_as df "rate" as_number;
  Some (zip_with (λ sa lr, {| plan_state := sa.1; plan_rate_area := sa.2;
                              metal_level := lr.1; rate := lr.2 |})
          (zip states areas) (zip levels rates)).

(** A [rate] or [second_lowest_rate] column in the mapping file would be
    renamed by the merges; such files are outside the schema. *)
Definition typed_zips (df : DataFrame) : option ZipFrame :=
  if decide ("rate" ∈ df.*1 ∨ "second_lowest_rate" ∈ df.*1) then None
  else
    zipcodes ← column_as df "zipcode" as_int64;
    states ← column_as df "state" as_text;
    areas ← column_as df "rate_area" as_int64;
    Some {| zf_columns := [];
            zf_rows := zip_with (λ z sa, ({| zipcode := z; state := sa.1; rate_area := sa.2 |}, []))
                         zipcodes (zip states areas) |}.

Definition unrated (zipcodes : list Z) : list TargetZip :=
  (λ z, {| target_zipcode := z; target_rate := None |}) <$> zipcodes.

Definition typed_targets (df : DataFrame) : option (list TargetZip) :=
  if decide (df.*1 = ["zipcode"; "rate"]) then
    match column_as df "rate" as_empty with
    | Some _ => unrated <$> column_as df "zipcode" as_int64
    | None => None
    end
  else if decide (df.*1 = ["zipcode"]) then
    unrated <$> column_as df "zipcode" as_int64
  else None.

Definition typed (loaded : Loaded) : option SLCSPCalculator :=
  plans ← typed_plans (plans_frame loaded);
  zips ← typed_zips (zips_frame loaded);
  targets ← typed_targets (slcsp_frame loaded);
  Some {| plans_data := plans; zipcode_data := zips; slcsp_data := targets;
          silver_plans := None; merged_data := None; second_lowest_rates := None |}.

(** [main], lines 114-116: what the program writes to standard output up to
    the timing line, or the exception that ends it.  The first expression
    the pipeline evaluates on the loaded frames is
    [self.plans_data['metal_level']], line 34: without that column the run
    ends there with [KeyError], whatever else the files hold.  With it, the
    result is [None] when the files are outside the schema the pipeline is
    modelled for. *)
Definition main (plans_file zips_file slcsp_file : Table) : option (result string) :=
  match __init__ plans_file zips_file slcsp_file with
  | Raise e => Some (Raise e)
  | Ok loaded =>
      match frame_getitem (plans_frame loaded) "metal_level" with
      | Raise e => Some (Raise e)
      | Ok _ =>
          self ← typed loaded;
          Some (match calculate_slcsp self with
                | (Ok _, self') => Ok (print_slcsp self')
                | (Raise e, _) => Raise e
                end)
      end
  end.



(** ** Shapes of printed text *)

Definition is_digit (c : ascii) : bool :=
  (48 <=? nat_of_ascii c)%nat && (nat_of_ascii c <=? 57)%nat.

Fixpoint all_digits (s : string) : bool :=
  match s with
  | "" => true
  | String c s' => is_digit c && all_digits s'
  end.

(** The text before and after the first point. *)
Fixpoint split_point (s : string) : option (string * string) :=
  match s with
  | "" => None
  | String c s' =>
      if decide (c = "."%char) then Some ("", s')
      else (λ p, (String c p.1, p.2)) <$> split_point s'
  end.

(** One or more digits, a point and exactly two digits. *)
Definition fixed_two (s : string) : bool :=
  match split_point s with
  | Some (ip, fp) =>
      negb (bool_decide (ip = "")) && all_digits ip
      && bool_decide (String.length fp = 2%nat) && all_digits fp
  | None => false
  end.

Definition strip_sign (s : string) : string :=
  match s with
  | String "-" s' => s'
  | _ => s
  end.

(** The same after an optional minus sign. *)
Definition two_decimals (s : string) : bool := fixed_two (strip_sign s).

(** The lines of a text: the pieces between its newline characters. *)
Fixpoint split_lines (s : string) : list string :=
  match s with
  | "" => [""]
  | String c s' =>
      if decide (c = ascii_of_nat 10) then "" :: split_lines s'
      else
        match split_lines s' with
        | [] => [String c ""]
        | l :: ls => String c l :: ls
        end
  end.

Fixpoint no_newline (s : string) : bool :=
  match s with
  | "" => true
  | String c s' => negb (bool_decide (c = ascii_of_nat 10)) && no_newline s'
  end.

(** ** What a method leaves alone *)

(** [m] never changes the attribute (or the part of the object) [f]. *)
Definition preserves {A X} (f : SLCSPCalculator → X) (m : method A) : Prop :=
  ∀ self, f (m self).2 = f self.

(** The [zipcode] column of the target frame. *)
Definition target_zipcodes (self : SLCSPCalculator) : list Z :=
  target_zipcode <$> slcsp_data self.

(** The line of the output for a target and its resolution. *)
Definition output_line (t : TargetZip) (r : resolved) : string :=
  str_of_int (target_zipcode t) +:+ "," +:+ format_rate r.

(** The stages of [calculate_slcsp] that come before [determine_rate]. *)
Definition resolve_stages : method unit :=
  filter_silver_plans >>> merge_data >>> calculate_second_lowest_rates
    >>> merge_zip_and_rate.

(** The Silver rates on offer in a rate area. *)
Definition silver_rates (plans : list Plan) (k : RateAreaKey) : list Qc :=
  rate <$> filter (λ p, plan_key p = k) (filter (λ p, metal_level p = "Silver") plans).

(** ** Files that [read_csv] accepts *)




(** ** Concrete inputs *)

(** A field that is not a floating-point literal. *)
Definition txt (s : string) : field := {| text := s; real := None |}.

Definition plans_header : list string := ["state"; "rate_area"; "metal_level"; "rate"].
Definition zips_header : list string := ["zipcode"; "state"; "rate_area"].
Definition slcsp_header : list string := ["zipcode"; "rate"].

(** The end-to-end scenario of the specification. *)
Definition scenario_plans : Table :=
  {| header := plans_header;
     records := [ [txt "AA"; txt "1"; txt "Silver"; txt "100"];
                  [txt "AA"; txt "1"; txt "Silver"; txt "150"];
                  [txt "AA"; txt "1"; txt "Silver"; txt "150"];
                  [txt "AA"; txt "2"; txt "Silver"; txt "90"] ] |}.

Definition scenario_zips : Table :=
  {| header := zips_header;
     records := [ [txt "00001"; txt "AA"; txt "1"];
                  [txt "00002"; txt "AA"; txt "2"];
                  [txt "00003"; txt "AA"; txt "1"];
                  [txt "00003"; txt "AA"; txt "2"] ] |}.

Definition scenario_slcsp : Table :=
  {| header := slcsp_header;
     records := [ [txt "00001"; txt ""]; [txt "00002"; txt ""]; [txt "00003"; txt ""] ] |}.

(** A ZIP code that lies in rate area 1 of two states, each with two
    distinct Silver rates. *)
Definition border_plans : Table :=
  {| header := plans_header;
     records := [ [txt "AA"; txt "1"; txt "Silver"; txt "100"];
                  [txt "AA"; txt "1"; txt "Silver"; txt "150"];
                  [txt "BB"; txt "1"; txt "Silver"; txt "200"];
                  [txt "BB"; txt "1"; txt "Silver"; txt "250"] ] |}.

Definition border_zips : Table :=
  {| header := zips_header;
     records := [ [txt "12345"; txt "AA"; txt "1"];
                  [txt "12345"; txt "BB"; txt "1"] ] |}.

Definition border_slcsp : Table :=
  {| header := slcsp_header; records := [ [txt "12345"; txt ""] ] |}.

(** A target ZIP code that the mapping does not list. *)
Definition unmapped_slcsp : Table :=
  {| header := slcsp_header; records := [ [txt "00001"; txt ""]; [txt "99999"; txt ""] ] |}.

(** Plans that give every rate area a single rate. *)
Definition single_rate_plans : Table :=
  {| header := plans_header;
     records := [ [txt "AA"; txt "1"; txt "Silver"; txt "100"];
                  [txt "AA"; txt "2"; txt "Silver"; txt "90"] ] |}.




(** Typed rows for small examples. *)
Definition silver (s : string) (a : Z) (r : Qc) : Plan :=
  {| plan_state := s; plan_rate_area := a; metal_level := "Silver"; rate := r |}.

Definition entry (z : Z) (s : string) (a : Z) : ZipEntry :=
  {| zipcode := z; state := s; rate_area := a |}.

Definition mapped (z : Z) (s : string) (a : Z) : ZipRow := (entry z s a, []).

(** The object as [typed] builds it from loaded frames: the mapping has no
    appended column yet and no target has a rate. *)
Definition fresh (entries : list ZipEntry) (targets : list Z) (plans : list Plan)
  : SLCSPCalculator :=
  {| plans_data := plans;
     zipcode_data := {| zf_columns := []; zf_rows := (λ e, (e, [])) <$> entries |};
     slcsp_data := unrated targets;
     silver_plans := None; merged_data := None; second_lowest_rates := None |}.

(** The scenario of the specification, as loaded. *)
Definition scenario_object : SLCSPCalculator :=
  fresh [entry 1 "AA" 1; entry 2 "AA" 2; entry 3 "AA" 1; entry 3 "AA" 2]
    [1; 2; 3]
    [silver "AA" 1 (Qc_of_Z 100); silver "AA" 1 (Qc_of_Z 150);
     silver "AA" 1 (Qc_of_Z 150); silver "AA" 2 (Qc_of_Z 90)].


(** ** The second lowest value, by minima *)

(** The least element of a list of rates. *)
Definition lowest (l : list Qc) : option Qc :=
  foldr (λ x acc,
           match acc with
           | None => Some x
           | Some m => Some (if decide (Qcle x m) then x else m)
           end) None l.

(** The least of the rates that lie strictly above the least one; NaN when
    there is no such rate. *)
Definition second_lowest (l : list Qc) : float64 :=
  m ← lowest l; lowest (filter (λ x, Qclt m x) l).

(** The second lowest Silver rate of a rate area. *)
Definition area_rate (plans : list Plan) (k : RateAreaKey) : float64 :=
  second_lowest (silver_rates plans k).

(** The mapping with each row's [second_lowest_rate] cell. *)
Definition rated_mapping (entries : list ZipEntry) (plans : list Plan) : ZipFrame :=
  {| zf_columns := ["second_lowest_rate"];
     zf_rows := (λ e, (e, [area_rate plans (zip_key e)])) <$> entries |}.


(** The cell that a left join on a right frame with distinct keys gives to
    a row of area [k]: the rate of the area, NaN when the frame has no row
    for it. *)
Definition rate_for (right : list (RateAreaKey * float64)) (k : RateAreaKey) : float64 :=
  match matches k right with
  | v :: _ => v
  | [] => NaN
  end.

(** The rates of the rows of a joined frame that belong to area [k]. *)
Definition group_rates (df : list MergedRow) (k : RateAreaKey) : list Qc :=
  rate_column (filter (λ r, merged_key r = k) df).


(** Resolution of a target ZIP code, read off the inputs: blank when the
    mapping rows of the ZIP code show two rate area numbers or one of their
    areas has no second lowest Silver rate, else the rate of the area of
    the first of these rows; [IndexError] when the mapping has no row for
    the ZIP code. *)
Definition resolve (entries : list ZipEntry) (plans : list Plan) (z : Z)
  : result resolved :=
  let rows := filter (λ e, zipcode e = z) entries in
  if decide (1 < nunique (rate_area <$> rows))%nat then Ok Blank
  else
    let cells := (λ e, area_rate plans (zip_key e)) <$> rows in
    if existsb isna cells then Ok Blank
    else
      match cells with
      | v :: _ => Ok (Rate v)
      | [] => Raise IndexError
      end.

(** What [calculate_slcsp] does on a freshly loaded object with a mapping
    row in an area that has a Silver plan, read off the inputs: how it ends
    and the target frame it leaves.  It ends with [KeyError] when no area
    of the mapping has a second lowest rate, and with the exception of the
    first target that does not resolve; otherwise every target gets the
    text of its resolution. *)
Definition run_outcome (entries : list ZipEntry) (targets : list Z) (plans : list Plan)
  : result unit * list TargetZip :=
  if decide (Forall (λ e, area_rate plans (zip_key e) = NaN) entries)
  then (Raise (KeyError "state"), unrated targets)
  else
    match series_apply (resolve entries plans) targets with
    | Ok rates => (Ok (), zip_with rated (unrated targets) rates)
    | Raise e => (Raise e, unrated targets)
    end.

(** Some mapping row lies in a rate area that has a Silver plan:
    [merged_data] has a row. *)
Definition some_silver_area (entries : list ZipEntry) (plans : list Plan) : Prop :=
  ∃ e, e ∈ entries ∧ silver_rates plans (zip_key e) ≠ [].


(** * Properties *)

(** ** Distinct values and the two smallest *)

Section drop_duplicates.
Context {A : Type} `{EqDecision A}.
Implicit Types l : list A.

Lemma elem_of_drop_duplicates x l : x ∈ drop_duplicates l ↔ x ∈ l.
Proof.
  induction l as [|y l IH]; simpl; [done|].
  rewrite !elem_of_cons, list_elem_of_filter, IH.
  destruct (decide (x = y)); tauto.
Qed.

Lemma NoDup_drop_duplicates l : NoDup (drop_duplicates l).
Proof.
  induction l as [|y l IH]; simpl; constructor.
  - rewrite list_elem_of_filter. by intros [? _].
  - by apply NoDup_filter.
Qed.

Lemma drop_duplicates_Permutation l k :
  (∀ x, x ∈ l ↔ x ∈ k) → drop_duplicates l ≡ₚ drop_duplicates k.
Proof.
  intros Hlk. apply NoDup_Permutation; auto using NoDup_drop_duplicates.
  intros x. by rewrite !elem_of_drop_duplicates.
Qed.

Lemma drop_duplicates_nil_inv l : drop_duplicates l = [] → l = [].
Proof. by destruct l. Qed.

(** One distinct value: every element is that value. *)
Lemma nunique_le_1 l :
  (nunique l ≤ 1)%nat ↔ ∀ x y, x ∈ l → y ∈ l → x = y.
Proof.
  unfold nunique. split.
  - intros Hlen x y Hx%elem_of_drop_duplicates Hy%elem_of_drop_duplicates.
    destruct (drop_duplicates l) as [|a [|b u]]; simpl in *; [ | | lia].
    + by apply elem_of_nil in Hx.
    + apply list_elem_of_singleton in Hx. apply list_elem_of_singleton in Hy.
      congruence.
  - intros Heq. pose proof (NoDup_drop_duplicates l) as Hnd.
    assert (∀ x y, x ∈ drop_duplicates l → y ∈ drop_duplicates l → x = y) as Heq'.
    { intros x y Hx Hy. apply Heq; by apply elem_of_drop_duplicates. }
    destruct (drop_duplicates l) as [|a [|b u]]; simpl; [lia | lia |].
    exfalso. apply NoDup_cons in Hnd as [Hab _]. apply Hab.
    rewrite (Heq' a b); [left | left | right; left].
Qed.
End drop_duplicates.

Lemma StronglySorted_Qclt_NoDup (s : list Qc) : StronglySorted Qclt s → NoDup s.
Proof.
  induction 1 as [|x s Hs IH Hx]; constructor; [|done].
  intros Hin. rewrite Forall_forall in Hx.
  by apply (Qclt_not_eq x x); [apply Hx|].
Qed.

Lemma StronglySorted_Qclt_Qcle (s : list Qc) :
  StronglySorted Qclt s → StronglySorted Qcle s.
Proof.
  induction 1 as [|x s Hs IH Hx]; constructor; [done|].
  eapply Forall_impl; [done|]. intros y. apply Qclt_le_weak.
Qed.

(** Sorting the distinct values of a column gives the one strictly
    ascending list that has the elements of the column. *)
Lemma merge_sort_drop_duplicates (l s : list Qc) :
  StronglySorted Qclt s → (∀ x, x ∈ s ↔ x ∈ l) →
  merge_sort Qcle (drop_duplicates l) = s.
Proof.
  intros Hs Hsl.
  apply (StronglySorted_unique Qcle).
  - apply StronglySorted_merge_sort; apply _.
  - by apply StronglySorted_Qclt_Qcle.
  - rewrite merge_sort_Permutation.
    apply NoDup_Permutation;
      auto using NoDup_drop_duplicates, StronglySorted_Qclt_NoDup.
    intros x. by rewrite elem_of_drop_duplicates, Hsl.
Qed.

(** [get_second_lowest_rate] depends on the set of rates only. *)
Lemma get_second_lowest_rate_ext (df df' : list MergedRow) :
  (∀ x, x ∈ rate_column df ↔ x ∈ rate_column df') →
  get_second_lowest_rate df = get_second_lowest_rate df'.
Proof.
  intros Hset. unfold get_second_lowest_rate, nsmallest.
  pose proof (drop_duplicates_Permutation _ _ Hset) as Hperm.
  rewrite (Permutation_length Hperm).
  replace (merge_sort Qcle (drop_duplicates (rate_column df)))
    with (merge_sort Qcle (drop_duplicates (rate_column df'))); [done|].
  apply (StronglySorted_unique Qcle);
    [apply StronglySorted_merge_sort; apply _ ..|].
  by rewrite !merge_sort_Permutation.
Qed.

(** [get_second_lowest_rate] never raises. *)
Lemma get_second_lowest_rate_total (df : list MergedRow) :
  ∃ v, get_second_lowest_rate df = Ok v.
Proof.
  unfold get_second_lowest_rate, nsmallest. case_decide as Hlen; [|by eexists].
  destruct (take 2 _ !! 1%nat) eqn:Hlk; [by eexists|].
  apply lookup_ge_None in Hlk. rewrite length_take in Hlk.
  rewrite (Permutation_length (merge_sort_Permutation _ _)) in Hlk. lia.
Qed.

(** C3.  For a group whose rows carry at least two distinct rates,
    [get_second_lowest_rate] returns the value at index 1 of the strictly
    ascending list of the distinct rates, and it returns the same for every
    other frame with the same set of rates, whatever the order of its rows
    and however often a rate is repeated. *)
Theorem second_lowest_rate_is_index_1 (df : list MergedRow) (s : list Qc) :
  StronglySorted Qclt s →
  (∀ x, x ∈ s ↔ x ∈ rate_column df) →
  (2 ≤ length s)%nat →
  (∃ r, s !! 1%nat = Some r ∧ get_second_lowest_rate df = Ok (Some r)) ∧
  (∀ df', (∀ x, x ∈ rate_column df' ↔ x ∈ rate_column df) →
          get_second_lowest_rate df' = get_second_lowest_rate df).
Proof.
  intros Hs Hset Hlen. split; [|intros df' Hset'; by apply get_second_lowest_rate_ext].
  destruct (lookup_lt_is_Some_2 s 1) as [r Hr]; [lia|].
  exists r. split; [done|].
  unfold get_second_lowest_rate, nsmallest.
  rewrite (merge_sort_drop_duplicates _ s Hs Hset).
  rewrite lookup_take_lt, Hr by lia.
  rewrite <-(Permutation_length (merge_sort_Permutation Qcle _)).
  rewrite (merge_sort_drop_duplicates _ s Hs Hset).
  by rewrite decide_True by lia.
Qed.

Lemma second_lowest_rate_is_index_1_witness :
  let df := [ (mapped 1 "AA" 1, silver "AA" 1 (Qc_of_Z 150));
              (mapped 1 "AA" 1, silver "AA" 1 (Qc_of_Z 100));
              (mapped 1 "AA" 1, silver "AA" 1 (Qc_of_Z 150)) ] in
  let s := [Qc_of_Z 100; Qc_of_Z 150] in
  (StronglySorted Qclt s ∧ (∀ x, x ∈ s ↔ x ∈ rate_column df) ∧ (2 ≤ length s)%nat)
  ∧ (∃ r, s !! 1%nat = Some r ∧ get_second_lowest_rate df = Ok (Some r))
  ∧ (∀ df', (∀ x, x ∈ rate_column df' ↔ x ∈ rate_column df) →
            get_second_lowest_rate df' = get_second_lowest_rate df).
Proof.
  intros df s.
  assert (StronglySorted Qclt s) as Hs by repeat constructor.
  assert (∀ x, x ∈ s ↔ x ∈ rate_column df) as Hset.
  { intros x. unfold s, df, rate_column. simpl.
    rewrite !elem_of_cons, !elem_of_nil. tauto. }
  assert (2 ≤ length s)%nat as Hlen by (simpl; lia).
  split; [done|].
  exact (second_lowest_rate_is_index_1 df s Hs Hset Hlen).
Defined.

(** ** Formatting *)

Lemma all_digits_string_of_uint (d : Decimal.uint) :
  all_digits (NilEmpty.string_of_uint d) = true.
Proof. induction d; simpl; by rewrite ?IHd. Qed.

Lemma str_of_int_digits (z : Z) :
  0 ≤ z → all_digits (str_of_int z) = true ∧ str_of_int z ≠ "".
Proof.
  intros Hz. unfold str_of_int. destruct z as [|p|p]; [done| |lia].
  simpl. pose proof (all_digits_string_of_uint (Pos.to_uint p)) as Hd.
  destruct (Pos.to_uint p); simpl in *; done.
Qed.

Lemma is_digit_digit_char (x : Z) : 0 ≤ x < 10 → is_digit (digit_char x) = true.
Proof.
  intros Hx.
  assert (x = 0 ∨ x = 1 ∨ x = 2 ∨ x = 3 ∨ x = 4 ∨ x = 5 ∨ x = 6 ∨ x = 7
          ∨ x = 8 ∨ x = 9) as Hcases by lia.
  repeat (destruct Hcases as [->|Hcases]; [done|]). by subst.
Qed.

Lemma split_point_digits (ip fp : string) :
  all_digits ip = true → split_point (ip +:+ "." +:+ fp) = Some (ip, fp).
Proof.
  induction ip as [|c ip IH]; simpl; [done|].
  intros [Hc Hip]%andb_true_iff. rewrite decide_False.
  - by rewrite IH.
  - intros ->. done.
Qed.

Lemma strip_sign_digit (c : ascii) (s : string) :
  is_digit c = true → strip_sign (String c s) = String c s.
Proof. destruct c as [[] [] [] [] [] [] [] []]; done. Qed.

Lemma two_decimals_intro (ip fp : string) :
  ip ≠ "" → all_digits ip = true →
  String.length fp = 2%nat → all_digits fp = true →
  two_decimals (ip +:+ "." +:+ fp) = true
  ∧ two_decimals ("-" +:+ ip +:+ "." +:+ fp) = true.
Proof.
  intros Hne Hip Hlen Hfp.
  assert (fixed_two (ip +:+ "." +:+ fp) = true) as Hfixed.
  { unfold fixed_two. rewrite split_point_digits by done.
    by rewrite bool_decide_false, Hip, bool_decide_true, Hfp by done. }
  split; [|done].
  unfold two_decimals. destruct ip as [|c ip]; [done|].
  apply andb_true_iff in Hip as [Hc _].
  change (String c ip +:+ "." +:+ fp) with (String c (ip +:+ "." +:+ fp)) in *.
  by rewrite strip_sign_digit.
Qed.

Lemma round_half_even_nonneg (n d : Z) : 0 ≤ n → 0 < d → 0 ≤ round_half_even n d.
Proof.
  intros Hn Hd. unfold round_half_even.
  pose proof (Z.div_pos n d Hn Hd).
  repeat case_decide; try destruct (Z.even _); lia.
Qed.

(** The rounded value is a nearest integer to [n / d]. *)
Lemma round_half_even_nearest (n d : Z) :
  0 < d → Z.abs (2 * (round_half_even n d * d - n)) ≤ d.
Proof.
  intros Hd. unfold round_half_even.
  pose proof (Z.div_mod n d) as Hdm. pose proof (Z.mod_pos_bound n d Hd).
  repeat case_decide; try destruct (Z.even _); nia.
Qed.

Lemma format_2f_abs_shape (q : Q) :
  ∃ ip fp, format_2f_abs q = ip +:+ "." +:+ fp
    ∧ ip ≠ "" ∧ all_digits ip = true
    ∧ String.length fp = 2%nat ∧ all_digits fp = true.
Proof.
  unfold format_2f_abs.
  assert (0 ≤ round_half_even (Z.abs (Qnum q) * 100) (Z.pos (Qden q))) as Hh
    by (apply round_half_even_nonneg; lia).
  generalize dependent (round_half_even (Z.abs (Qnum q) * 100) (Z.pos (Qden q))).
  intros h Hh.
  destruct (str_of_int_digits (h `div` 100)) as [Hdig Hne].
  { apply Z.div_pos; lia. }
  eexists _, _. split; [reflexivity|]. repeat split.
  - exact Hne.
  - exact Hdig.
  - cbn [all_digits]. rewrite !is_digit_digit_char; [reflexivity| |].
    + apply Z.mod_pos_bound. lia.
    + pose proof (Z.mod_pos_bound h 100). split.
      * apply Z.div_pos; lia.
      * apply Z.div_lt_upper_bound; lia.
Qed.

Lemma format_2f_abs_two_decimals (q : Q) :
  two_decimals (format_2f_abs q) = true
  ∧ two_decimals ("-" +:+ format_2f_abs q) = true.
Proof.
  destruct (format_2f_abs_shape q) as (ip & fp & -> & ? & ? & ? & ?).
  by apply two_decimals_intro.
Qed.


(** ** The object's attributes across the pipeline *)

Lemma bind_Ok_inv {A B} (m : method A) (k : A → method B) self b self' :
  bind m k self = (Ok b, self') →
  ∃ a self1, m self = (Ok a, self1) ∧ k a self1 = (Ok b, self').
Proof.
  unfold bind. destruct (m self) as [[a|e] self1]; [eauto|done].
Qed.

Lemma preserves_bind {A B X} (f : SLCSPCalculator → X) (m : method A) (k : A → method B) :
  preserves f m → (∀ a, preserves f (k a)) → preserves f (bind m k).
Proof.
  intros Hm Hk self. unfold bind. specialize (Hm self).
  destruct (m self) as [[a|e] self1]; simpl in *; [|done].
  by rewrite Hk.
Qed.

Lemma preserves_lift {A X} (f : SLCSPCalculator → X) (r : result A) :
  preserves f (lift r).
Proof. done. Qed.

Lemma preserves_getattr {A X} (f : SLCSPCalculator → X) name (field : _ → option A) :
  preserves f (getattr name field).
Proof. intros self. unfold getattr. by destruct (field self). Qed.

Ltac solve_preserves :=
  repeat first
    [ apply preserves_bind; [|intros ?] | apply preserves_getattr
    | apply preserves_lift | done
    | intros ?; apply preserves_bind; [apply preserves_lift|done] ].

Lemma stage_preserves_inputs (m : method unit) :
  m ∈ [filter_silver_plans; merge_data; calculate_second_lowest_rates;
       merge_zip_and_rate] →
  preserves plans_data m ∧ preserves slcsp_data m.
Proof.
  rewrite !elem_of_cons, elem_of_nil.
  intros [->|[->|[->|[->|[]]]]]; split; solve_preserves.
Qed.

Lemma series_apply_length {A B} (f : A → result B) l ys :
  series_apply f l = Ok ys → length ys = length l.
Proof.
  revert ys. induction l as [|x l IH]; simpl; intros ys.
  - by intros [= <-].
  - destruct (f x); simpl; [|done].
    destruct (series_apply f l); simpl; [|done].
    intros [= <-]. simpl. by rewrite (IH _ eq_refl).
Qed.

Lemma zipcodes_zip_with_rated (l : list TargetZip) (rates : list resolved) :
  length rates = length l →
  target_zipcode <$> zip_with rated l rates = target_zipcode <$> l.
Proof.
  revert rates. induction l as [|t l IH]; intros [|r rates]; simpl; try done.
  intros [= Hlen]. by rewrite IH.
Qed.

(** What a call of [determine_rate] does: either some [get_rate] raises and
    nothing is assigned, or every target row gets its formatted rate. *)
Lemma determine_rate_cases self :
  (∃ e, series_apply (get_rate self) (target_zipcodes self) = Raise e
        ∧ determine_rate self = (Raise e, self))
  ∨ (∃ rates self',
        series_apply (get_rate self) (target_zipcodes self) = Ok rates
        ∧ length rates = length (slcsp_data self)
        ∧ determine_rate self = (Ok (), self')
        ∧ slcsp_data self' = zip_with rated (slcsp_data self) rates
        ∧ plans_data self' = plans_data self).
Proof.
  unfold determine_rate, bind, lift, target_zipcodes.
  destruct (series_apply _ _) as [rates|e] eqn:Happ; [right|left; eauto].
  eexists rates, _. split; [done|]. split; [|done].
  apply series_apply_length in Happ. by rewrite length_fmap in Happ.
Qed.

Lemma determine_rate_preserves :
  preserves plans_data determine_rate ∧ preserves target_zipcodes determine_rate.
Proof.
  split; intros self.
  - destruct (determine_rate_cases self)
      as [(e & _ & ->)|(rates & self' & _ & _ & -> & _ & Hp)]; done.
  - destruct (determine_rate_cases self)
      as [(e & _ & ->)|(rates & self' & _ & Hlen & -> & Hs & _)]; [done|].
    unfold target_zipcodes. simpl. rewrite Hs.
    by apply zipcodes_zip_with_rated.
Qed.

(** C10.  Whatever a run of [calculate_slcsp] does, and also when it
    raises, it leaves [plans_data] unchanged and it leaves the [zipcode]
    column of [slcsp_data] unchanged, values and order. *)
Theorem calculate_slcsp_frame (self : SLCSPCalculator) :
  plans_data (calculate_slcsp self).2 = plans_data self
  ∧ target_zipcode <$> slcsp_data (calculate_slcsp self).2
    = target_zipcode <$> slcsp_data self.
Proof.
  assert (∀ m : method unit, preserves slcsp_data m → preserves target_zipcodes m)
    as Hweak.
  { intros m Hm s. unfold target_zipcodes. by rewrite Hm. }
  destruct determine_rate_preserves as [Hdp Hdz].
  split.
  - revert self. change (preserves plans_data calculate_slcsp).
    unfold calculate_slcsp.
    repeat (apply preserves_bind;
            [apply stage_preserves_inputs; repeat constructor|intros _]).
    done.
  - revert self. change (preserves target_zipcodes calculate_slcsp).
    unfold calculate_slcsp.
    repeat (apply preserves_bind;
            [apply Hweak, stage_preserves_inputs; repeat constructor|intros _]).
    done.
Qed.

(** ** The printed output *)

Lemma string_app_cons (x : ascii) (a b : string) :
  String x a +:+ b = String x (a +:+ b).
Proof. done. Qed.

Lemma string_app_assoc (a b c : string) : (a +:+ b) +:+ c = a +:+ (b +:+ c).
Proof.
  induction a as [|x a IH]; [done|]. by rewrite !string_app_cons, IH.
Qed.

Lemma no_newline_app (a b : string) :
  no_newline (a +:+ b) = no_newline a && no_newline b.
Proof.
  induction a as [|x a IH]; [done|].
  rewrite string_app_cons. simpl. by rewrite IH, andb_assoc.
Qed.

Lemma all_digits_no_newline (s : string) : all_digits s = true → no_newline s = true.
Proof.
  induction s as [|c s IH]; simpl; [done|].
  intros [Hc Hs]%andb_true_iff. rewrite IH by done.
  rewrite bool_decide_false; [done|]. intros ->. done.
Qed.

Lemma no_newline_str_of_int (z : Z) : no_newline (str_of_int z) = true.
Proof.
  destruct z as [|p|p].
  - done.
  - apply all_digits_no_newline, str_of_int_digits. lia.
  - pose proof (str_of_int_digits (Z.pos p)) as [Hd _]; [lia|].
    apply all_digits_no_newline in Hd.
    unfold str_of_int in *. simpl in *. done.
Qed.

Lemma no_newline_format_rate (r : resolved) : no_newline (format_rate r) = true.
Proof.
  destruct r as [|[q|]]; [done| |done]. simpl.
  destruct (format_2f_abs_shape (this q)) as (ip & fp & -> & _ & Hip & _ & Hfp).
  apply all_digits_no_newline in Hip, Hfp.
  case_decide; rewrite ?no_newline_app, Hip, Hfp; done.
Qed.

Lemma no_newline_output_line t r : no_newline (output_line t r) = true.
Proof.
  unfold output_line.
  by rewrite !no_newline_app, no_newline_str_of_int, no_newline_format_rate.
Qed.

Lemma split_lines_newline (a rest : string) :
  no_newline a = true →
  split_lines (a +:+ newline +:+ rest) = a :: split_lines rest.
Proof.
  induction a as [|c a IH].
  - intros _. change ("" +:+ newline +:+ rest) with (String (ascii_of_nat 10) rest).
    cbn [split_lines]. by rewrite decide_True.
  - cbn [no_newline]. intros [Hc Ha]%andb_true_iff.
    apply negb_true_iff, bool_decide_eq_false in Hc.
    rewrite string_app_cons. cbn [split_lines].
    rewrite decide_False by done. by rewrite IH.
Qed.

Lemma csv_line_rated t r : csv_line (rated t r) = output_line t r +:+ newline.
Proof. unfold csv_line, output_line. simpl. by rewrite !string_app_assoc. Qed.

(** The text printed for the rows written by [determine_rate]: a header
    line, one line per row in order, and the two line ends that close
    [to_csv]'s text and [print]'s. *)
Lemma split_lines_print (l : list TargetZip) (rates : list resolved) :
  split_lines (to_csv (zip_with rated l rates) +:+ newline)
  = "zipcode,rate" :: zip_with output_line l rates ++ [""; ""].
Proof.
  unfold to_csv. rewrite !string_app_assoc, split_lines_newline by done.
  f_equal. revert rates. induction l as [|t l IH]; intros [|r rates]; try done.
  cbn [zip_with foldr app]. rewrite csv_line_rated, !string_app_assoc.
  rewrite split_lines_newline by apply no_newline_output_line.
  by rewrite <-IH.
Qed.

(** When [calculate_slcsp] completes, [slcsp_data] has one row per target
    row, in the same order and with the same ZIP code, and what
    [print_slcsp] writes is the header line followed by exactly one line
    per target row in that order.  A run that does not complete prints
    nothing. *)
Lemma output_rows_match_targets (self self' : SLCSPCalculator) :
  calculate_slcsp self = (Ok (), self') →
  ∃ rates : list resolved,
    length rates = length (slcsp_data self)
    ∧ slcsp_data self' = zip_with rated (slcsp_data self) rates
    ∧ target_zipcode <$> slcsp_data self' = target_zipcode <$> slcsp_data self
    ∧ split_lines (print_slcsp self')
      = "zipcode,rate" :: zip_with output_line (slcsp_data self) rates ++ [""; ""].
Proof.
  unfold calculate_slcsp. intros Hrun.
  assert (∀ (m : method unit) (k : unit → method unit) s s',
    m ∈ [filter_silver_plans; merge_data; calculate_second_lowest_rates;
         merge_zip_and_rate] →
    bind m k s = (Ok (), s') →
    ∃ s1, slcsp_data s1 = slcsp_data s ∧ k () s1 = (Ok (), s')) as Hstep.
  { intros m k s s' Hm (a & s1 & Hms & Hk)%bind_Ok_inv.
    exists s1. destruct a. split; [|done].
    destruct (stage_preserves_inputs m Hm) as [_ Hp].
    specialize (Hp s). by rewrite Hms in Hp. }
  apply Hstep in Hrun as (s1 & H1 & Hrun); [|repeat constructor].
  apply Hstep in Hrun as (s2 & H2 & Hrun); [|repeat constructor].
  apply Hstep in Hrun as (s3 & H3 & Hrun); [|repeat constructor].
  apply Hstep in Hrun as (s4 & H4 & Hrun); [|repeat constructor].
  assert (slcsp_data s4 = slcsp_data self) as Hs4 by congruence.
  destruct (determine_rate_cases s4)
    as [(e & _ & Hd)|(rates & s5 & _ & Hlen & Hd & Hs & _)]; [congruence|].
  assert (s5 = self') as -> by congruence.
  rewrite Hs4 in *. exists rates. split; [done|]. split; [done|].
  split.
  - rewrite Hs. by apply zipcodes_zip_with_rated.
  - unfold print_slcsp. rewrite Hs. apply split_lines_print.
Qed.

Lemma output_rows_match_targets_witness :
  let self := scenario_object in
  let self' := (calculate_slcsp self).2 in
  calculate_slcsp self = (Ok (), self')
  ∧ ∃ rates : list resolved,
      length rates = length (slcsp_data self)
      ∧ slcsp_data self' = zip_with rated (slcsp_data self) rates
      ∧ target_zipcode <$> slcsp_data self' = target_zipcode <$> slcsp_data self
      ∧ split_lines (print_slcsp self')
        = "zipcode,rate" :: zip_with output_line (slcsp_data self) rates ++ [""; ""].
Proof.
  intros self self'.
  assert (calculate_slcsp self = (Ok (), self')) as Hrun by (vm_compute; reflexivity).
  split; [exact Hrun|].
  exact (output_rows_match_targets self self' Hrun).
Defined.

(** ** Resolution *)

Lemma index_of_elem_of (label : string) (columns : list string) :
  label ∈ columns → ∃ i, index_of label columns = Some i.
Proof.
  induction columns as [|c cs IH]; simpl.
  - by intros ?%elem_of_nil.
  - intros Hin. case_decide as Hc; [by eexists|].
    apply elem_of_cons in Hin as [->|Hin]; [done|].
    destruct (IH Hin) as [i ->]. by eexists.
Qed.

Lemma filter_none {A} (P : A → Prop) `{∀ x, Decision (P x)} (l : list A) :
  (∀ x, x ∈ l → ¬ P x) → filter P l = [].
Proof.
  intros Hl. destruct (filter P l) as [|x k] eqn:Hf; [done|].
  assert (x ∈ filter P l) as [? ?]%list_elem_of_filter by (rewrite Hf; left).
  by destruct (Hl x).
Qed.

(** A ZIP code listed with two different [rate_area] numbers resolves to
    the empty string. *)
Lemma get_rate_two_rate_areas (self : SLCSPCalculator) (z : Z) (r1 r2 : ZipRow) :
  r1 ∈ zf_rows (zipcode_data self) → r2 ∈ zf_rows (zipcode_data self) →
  zipcode r1.1 = z → zipcode r2.1 = z → rate_area r1.1 ≠ rate_area r2.1 →
  get_rate self z = Ok Blank.
Proof.
  intros H1 H2 Hz1 Hz2 Hne. unfold get_rate.
  rewrite decide_True; [done|].
  apply Nat.lt_nge. intros Hle.
  apply Hne, (proj1 (nunique_le_1 _) Hle).
  - apply list_elem_of_fmap. exists r1. split; [done|].
    by apply list_elem_of_filter.
  - apply list_elem_of_fmap. exists r2. split; [done|].
    by apply list_elem_of_filter.
Qed.

(** C1 (violated by the code).  ZIP 12345 is mapped to rate area 1 of
    state AA and to rate area 1 of state BB, two distinct (state,
    rate_area) pairs.  [get_rate] counts the distinct [rate_area] numbers
    only, finds one, and prints the rate of the first row instead of a
    blank. *)
Theorem border_zip_gets_first_state_rate :
  main border_plans border_zips border_slcsp
  = Some (Ok ("zipcode,rate" +:+ newline +:+ "12345,150.00" +:+ newline +:+ newline)).
Proof. vm_compute. reflexivity. Qed.

(** C2 (violated by the code).  For a ZIP code that the mapping does not
    list, the filtered frame is empty: [nunique()] is 0, [isna().any()] is
    false, and [values[0]] raises [IndexError]. *)
Theorem get_rate_unmapped_zip_raises (self : SLCSPCalculator) (z : Z) :
  "second_lowest_rate" ∈ zf_columns (zipcode_data self) →
  (∀ r, r ∈ zf_rows (zipcode_data self) → zipcode r.1 ≠ z) →
  get_rate self z = Raise IndexError.
Proof.
  intros Hcol Hz. unfold get_rate, getitem.
  destruct (index_of_elem_of _ _ Hcol) as [i ->].
  by rewrite filter_none by done.
Qed.

Lemma get_rate_unmapped_zip_raises_witness :
  let self := (resolve_stages scenario_object).2 in
  ("second_lowest_rate" ∈ zf_columns (zipcode_data self)
   ∧ ∀ r, r ∈ zf_rows (zipcode_data self) → zipcode r.1 ≠ 99999)
  ∧ get_rate self 99999 = Raise IndexError.
Proof.
  intros self.
  assert ("second_lowest_rate" ∈ zf_columns (zipcode_data self)) as Hcol.
  { vm_compute. repeat constructor. }
  assert (∀ r, r ∈ zf_rows (zipcode_data self) → zipcode r.1 ≠ 99999) as Hz.
  { apply Forall_forall. vm_compute. repeat constructor; done. }
  split; [done|].
  exact (get_rate_unmapped_zip_raises self 99999 Hcol Hz).
Defined.

(** The same end to end: one unlisted target ZIP code ends the program
    with the exception, and nothing is printed. *)
Lemma unmapped_target_ends_main :
  main scenario_plans scenario_zips unmapped_slcsp = Some (Raise IndexError).
Proof. vm_compute. reflexivity. Qed.

(** ** Undefined second lowest rates *)

Lemma get_second_lowest_rate_None (df : list MergedRow) :
  (nunique (rate_column df) ≤ 1)%nat → get_second_lowest_rate df = Ok None.
Proof.
  intros Hle. unfold get_second_lowest_rate.
  rewrite decide_False; [done|]. unfold nunique in Hle. lia.
Qed.

Lemma nunique_le_1_subseteq {A} `{EqDecision A} (l k : list A) :
  (∀ x, x ∈ l → x ∈ k) → (nunique k ≤ 1)%nat → (nunique l ≤ 1)%nat.
Proof.
  intros Hlk Hk. apply nunique_le_1. intros x y Hx Hy.
  apply (proj1 (nunique_le_1 k) Hk); auto.
Qed.

(** The rates of a group of [merged_data] are Silver rates of its area. *)
Lemma rate_column_group (rows : list ZipRow) (plans : list Plan) (k : RateAreaKey) x :
  x ∈ rate_column
        (filter (λ r, merged_key r = k)
           (merge_inner rows (filter (λ p, metal_level p = "Silver") plans))) →
  x ∈ silver_rates plans k.
Proof.
  unfold rate_column, silver_rates, merge_inner.
  intros (m & -> & [Hk Hm]%list_elem_of_filter)%list_elem_of_fmap.
  apply list_elem_of_bind in Hm as (l & Hm & _).
  apply list_elem_of_fmap in Hm as (p & -> & [_ Hp]%list_elem_of_filter).
  apply list_elem_of_fmap. exists p. split; [done|].
  by apply list_elem_of_filter.
Qed.

Lemma series_apply_zip {A B K} (f : A → result B) (g : A → K) l ys k v :
  series_apply f l = Ok ys → (k, v) ∈ zip (g <$> l) ys →
  ∃ x, x ∈ l ∧ k = g x ∧ f x = Ok v.
Proof.
  revert ys. induction l as [|x l IH]; simpl; intros ys.
  - intros _ ?%elem_of_nil. done.
  - destruct (f x) as [y|] eqn:Hfx; simpl; [|done].
    destruct (series_apply f l) as [ys'|]; simpl; [|done].
    intros [= <-]. simpl. intros [[= -> ->]|Hin]%elem_of_cons.
    + exists x. split; [left|done].
    + destruct (IH _ eq_refl Hin) as (x' & ? & ? & ?).
      exists x'. split; [by right|done].
Qed.

(** Every row of the frame of second lowest rates holds what
    [get_second_lowest_rate] returns for the group of its key. *)
Lemma groupby_apply_rows (df : list MergedRow) rows k v :
  groupby_apply df = Ok (RatesByArea rows) → (k, v) ∈ rows →
  get_second_lowest_rate (filter (λ r, merged_key r = k) df) = Ok v.
Proof.
  unfold groupby_apply.
  destruct (series_apply _ (groupby df)) as [values|] eqn:Happ; simpl; [|done].
  destruct values as [|v0 values]; [done|].
  destruct (forallb isna (v0 :: values)); [done|]. intros [= <-] Hin.
  destruct (series_apply_zip _ fst _ _ _ _ Happ Hin) as (g & Hg & -> & Hv).
  unfold groupby in Hg. apply list_elem_of_fmap in Hg as (k & -> & _). done.
Qed.

(** The first four stages on a freshly loaded object: when they complete,
    the aggregator has produced a frame with key columns and the mapping
    carries its [second_lowest_rate] column. *)
Lemma resolve_stages_fresh entries targets plans self' :
  resolve_stages (fresh entries targets plans) = (Ok (), self') →
  ∃ rows,
    groupby_apply
      (merge_inner ((λ e, (e, [])) <$> entries)
         (filter (λ p, metal_level p = "Silver") plans))
    = Ok (RatesByArea rows)
    ∧ zipcode_data self'
      = {| zf_columns := ["second_lowest_rate"];
           zf_rows := left_join ((λ e, (e, [])) <$> entries) rows |}.
Proof.
  unfold resolve_stages, filter_silver_plans, merge_data,
    calculate_second_lowest_rates, merge_zip_and_rate, bind, getattr, lift.
  simpl. destruct (groupby_apply _) as [[rows|]|e]; simpl; [|done..].
  intros [= <-]. by exists rows.
Qed.

(** On a freshly loaded object whose first four stages complete, take a
    mapping row whose rate area offers at most one distinct Silver rate
    (exactly one, or no Silver plan at all).  The second lowest rate of
    that area's group is undefined, and the ZIP code of the row resolves
    to the empty string.  The stages complete only when some area of the
    mapping offers two distinct rates. *)
Lemma undefined_rate_resolves_blank entries targets plans self' (e : ZipEntry) :
  resolve_stages (fresh entries targets plans) = (Ok (), self') →
  e ∈ entries →
  (nunique (silver_rates plans (zip_key e)) ≤ 1)%nat →
  get_second_lowest_rate
    (filter (λ r, merged_key r = zip_key e)
       (merge_inner ((λ e, (e, [])) <$> entries)
          (filter (λ p, metal_level p = "Silver") plans)))
  = Ok None
  ∧ get_rate self' (zipcode e) = Ok Blank
  ∧ format_rate Blank = "".
Proof.
  intros Hrun He Hone.
  assert (∀ k, k = zip_key e →
    get_second_lowest_rate
      (filter (λ r, merged_key r = k)
         (merge_inner ((λ e, (e, [])) <$> entries)
            (filter (λ p, metal_level p = "Silver") plans)))
    = Ok None) as Hgroup.
  { intros k ->. apply get_second_lowest_rate_None.
    eapply nunique_le_1_subseteq; [|exact Hone].
    intros x. apply rate_column_group. }
  split; [by apply Hgroup|]. split; [|done].
  destruct (resolve_stages_fresh _ _ _ _ Hrun) as (rows & Hagg & Hzd).
  unfold get_rate. rewrite Hzd. simpl.
  case_decide; [done|]. unfold getitem. simpl.
  assert (∀ v, v ∈ joined_cells (zip_key e) rows → v = NaN) as Hnan.
  { intros v. unfold joined_cells.
    destruct (matches (zip_key e) rows) as [|v0 vs] eqn:Hm.
    - by intros ->%list_elem_of_singleton.
    - rewrite <-Hm. unfold matches.
      intros ([k v'] & -> & [Hk Hin]%list_elem_of_filter)%list_elem_of_fmap.
      simpl in *. subst k.
      pose proof (groupby_apply_rows _ _ _ _ Hagg Hin) as Hv.
      rewrite Hgroup in Hv by done. by injection Hv as <-. }
  assert (∃ v, v ∈ joined_cells (zip_key e) rows) as [v Hv].
  { unfold joined_cells. destruct (matches _ _); eexists; left. }
  rewrite (Hnan v Hv) in Hv.
  replace (existsb isna _) with true; [done|].
  symmetry. apply existsb_exists. exists NaN. split; [|done].
  apply list_elem_of_In, list_elem_of_fmap. exists (e, [NaN]). split; [done|].
  apply list_elem_of_filter. split; [done|].
  unfold left_join. apply list_elem_of_bind. exists (e, []). split.
  - apply list_elem_of_fmap. by exists NaN.
  - apply list_elem_of_fmap. by exists e.
Qed.

Lemma undefined_rate_resolves_blank_witness :
  let entries := [entry 1 "AA" 1; entry 2 "AA" 2; entry 3 "AA" 1; entry 3 "AA" 2] in
  let plans := [silver "AA" 1 (Qc_of_Z 100); silver "AA" 1 (Qc_of_Z 150);
                silver "AA" 1 (Qc_of_Z 150); silver "AA" 2 (Qc_of_Z 90)] in
  let self' := (resolve_stages (fresh entries [1; 2; 3] plans)).2 in
  let e := entry 2 "AA" 2 in
  (resolve_stages (fresh entries [1; 2; 3] plans) = (Ok (), self')
   ∧ e ∈ entries
   ∧ (nunique (silver_rates plans (zip_key e)) ≤ 1)%nat)
  ∧ get_second_lowest_rate
      (filter (λ r, merged_key r = zip_key e)
         (merge_inner ((λ e, (e, [])) <$> entries)
            (filter (λ p, metal_level p = "Silver") plans)))
    = Ok None
  ∧ get_rate self' (zipcode e) = Ok Blank
  ∧ format_rate Blank = "".
Proof.
  intros entries plans self' e.
  assert (resolve_stages (fresh entries [1; 2; 3] plans) = (Ok (), self')) as Hrun
    by (vm_compute; reflexivity).
  assert (e ∈ entries) as He by (right; left).
  assert (nunique (silver_rates plans (zip_key e)) ≤ 1)%nat as Hone
    by (vm_compute; lia).
  split; [done|].
  exact (undefined_rate_resolves_blank entries [1; 2; 3] plans self' e Hrun He Hone).
Defined.

(** ** ZIP codes through the loader *)










(** ** The end-to-end scenario *)

(** C6 (as amended).  On the scenario the program prints three rows in the
    order of the targets, with the rates 150.00, blank and blank; the ZIP
    codes are printed as the integers 1, 2 and 3. *)
Theorem scenario_output :
  main scenario_plans scenario_zips scenario_slcsp
  = Some (Ok ("zipcode,rate" +:+ newline
              +:+ "1,150.00" +:+ newline
              +:+ "2," +:+ newline
              +:+ "3," +:+ newline +:+ newline)).
Proof. vm_compute. reflexivity. Qed.

(** C6 (as stated, refuted).  The output does not show the ZIP codes
    00001, 00002 and 00003. *)
Lemma scenario_output_has_no_leading_zeros :
  main scenario_plans scenario_zips scenario_slcsp
  ≠ Some (Ok ("zipcode,rate" +:+ newline
              +:+ "00001,150.00" +:+ newline
              +:+ "00002," +:+ newline
              +:+ "00003," +:+ newline +:+ newline)).
Proof. vm_compute. intros [=]. Qed.

(** ** What the loader checks *)













(** ** When the pipeline completes *)

Lemma series_apply_Ok {A B} (f : A → result B) (l : list A) :
  (∀ x, x ∈ l → ∃ y, f x = Ok y) → ∃ ys, series_apply f l = Ok ys.
Proof.
  induction l as [|x l IH]; intros Hf; [by eexists|]. simpl.
  destruct (Hf x) as [y ->]; [left|].
  destruct IH as [ys ->]; [|by eexists].
  intros x' Hx'. apply Hf. by right.
Qed.

(** [get_rate] returns for every ZIP code that the mapping lists, once the
    mapping has its [second_lowest_rate] column. *)
Lemma get_rate_mapped_zip (self : SLCSPCalculator) (z : Z) (r : ZipRow) :
  "second_lowest_rate" ∈ zf_columns (zipcode_data self) →
  r ∈ zf_rows (zipcode_data self) → zipcode r.1 = z →
  ∃ v, get_rate self z = Ok v.
Proof.
  intros Hcol Hr Hz. unfold get_rate, getitem.
  case_decide; [by eexists|].
  destruct (index_of_elem_of _ _ Hcol) as [i ->]. simpl.
  destruct (existsb isna _); [by eexists|].
  assert (r ∈ filter (λ r : ZipRow, zipcode r.1 = z) (zf_rows (zipcode_data self)))
    as Hin by (by apply list_elem_of_filter).
  destruct (filter _ _) as [|r0 rs]; [by apply elem_of_nil in Hin|].
  by eexists.
Qed.

(** [determine_rate] completes when every target ZIP code is listed in the
    mapping. *)
Lemma determine_rate_completes (self : SLCSPCalculator) :
  "second_lowest_rate" ∈ zf_columns (zipcode_data self) →
  (∀ t, t ∈ slcsp_data self →
        ∃ r, r ∈ zf_rows (zipcode_data self) ∧ zipcode r.1 = target_zipcode t) →
  ∃ self', determine_rate self = (Ok (), self').
Proof.
  intros Hcol Hall.
  destruct (determine_rate_cases self)
    as [(e & Happ & _)|(rates & self' & _ & _ & Hd & _)]; [|by eexists].
  destruct (series_apply_Ok (get_rate self) (target_zipcodes self)) as [ys Hys].
  - intros z (t & -> & Ht)%list_elem_of_fmap.
    destruct (Hall t Ht) as (r & Hr & Hz).
    by apply (get_rate_mapped_zip self _ r).
  - congruence.
Qed.

(** When no rate area has two distinct Silver rates, the aggregator's frame
    has no key columns and [merge_zip_and_rate] raises. *)
Lemma single_rate_plans_end_main :
  main single_rate_plans scenario_zips scenario_slcsp = Some (Raise (KeyError "state")).
Proof. vm_compute. reflexivity. Qed.

(** ** Loaded objects *)

Lemma zip_with_pair_nil {A B} (f : A → B → ZipEntry) (l : list A) (k : list B) :
  zip_with (λ x y, (f x y, @nil float64)) l k = (λ e, (e, [])) <$> zip_with f l k.
Proof.
  revert k. induction l as [|x l IH]; intros [|y k]; [done..|].
  simpl. by rewrite IH.
Qed.

Lemma typed_zips_fresh (df : DataFrame) (zips : ZipFrame) :
  typed_zips df = Some zips →
  ∃ entries, zips = {| zf_columns := []; zf_rows := (λ e, (e, [])) <$> entries |}.
Proof.
  unfold typed_zips. case_decide; [done|].
  destruct (column_as df "zipcode" _) as [zs|]; [|done].
  destruct (column_as df "state" _) as [ss|]; [|done].
  destruct (column_as df "rate_area" _) as [rs|]; [|done].
  simpl. intros [= <-]. rewrite zip_with_pair_nil. by eexists.
Qed.

Lemma typed_targets_unrated (df : DataFrame) (targets : list TargetZip) :
  typed_targets df = Some targets → ∃ zipcodes, targets = unrated zipcodes.
Proof.
  unfold typed_targets.
  assert (∀ o : option (list Z), unrated <$> o = Some targets →
          ∃ zipcodes, targets = unrated zipcodes) as Hunrated.
  { intros [zs|]; [|done]. intros [= <-]. by eexists. }
  repeat case_decide; [|by apply Hunrated|done].
  destruct (column_as df "rate" _); [by apply Hunrated|done].
Qed.

(** Every object that [typed] builds is a fresh one. *)
Lemma typed_is_fresh (loaded : Loaded) (self : SLCSPCalculator) :
  typed loaded = Some self →
  ∃ entries targets plans, self = fresh entries targets plans.
Proof.
  unfold typed.
  destruct (typed_plans _) as [plans|]; [|done].
  destruct (typed_zips _) as [zips|] eqn:Hz; [|done].
  destruct (typed_targets _) as [targets|] eqn:Ht; [|done].
  apply typed_zips_fresh in Hz as [entries ->].
  apply typed_targets_unrated in Ht as [zipcodes ->].
  simpl. intros [= <-]. by eexists entries, zipcodes, plans.
Qed.

(** The scenario's files load as [scenario_object]. *)
Lemma scenario_loads :
  ∃ loaded, __init__ scenario_plans scenario_zips scenario_slcsp = Ok loaded
            ∧ typed loaded = Some scenario_object.
Proof. eexists. split; vm_compute; reflexivity. Qed.

(** * Further properties of the pipeline *)

(** ** The second lowest rate as a minimum *)

Lemma lowest_None (l : list Qc) : lowest l = None ↔ l = [].
Proof.
  destruct l as [|x l]; [done|]. simpl. by destruct (lowest l).
Qed.

Lemma lowest_Some_1 (l : list Qc) (m : Qc) :
  lowest l = Some m → m ∈ l ∧ ∀ x, x ∈ l → Qcle m x.
Proof.
  revert m. induction l as [|y l IH]; [done|]. simpl. intros m.
  destruct (lowest l) as [m'|] eqn:Hl.
  - destruct (IH m' eq_refl) as [Hin Hmin]. intros [= <-].
    case_decide as Hle.
    + split; [left|]. intros x [->|Hx]%elem_of_cons; [apply Qcle_refl|].
      eapply Qcle_trans; [done|]. by apply Hmin.
    + split; [by right|]. intros x [->|Hx]%elem_of_cons; [|by apply Hmin].
      apply Qclt_le_weak. by apply Qclt_nge.
  - apply lowest_None in Hl as ->. intros [= <-]. split; [left|].
    intros x ->%list_elem_of_singleton. apply Qcle_refl.
Qed.

(** [lowest] returns the minimum of the list. *)
Lemma lowest_Some (l : list Qc) (m : Qc) :
  lowest l = Some m ↔ m ∈ l ∧ ∀ x, x ∈ l → Qcle m x.
Proof.
  split; [apply lowest_Some_1|]. intros [Hin Hmin].
  destruct (lowest l) as [m'|] eqn:Hl.
  - apply lowest_Some_1 in Hl as [Hin' Hmin']. f_equal.
    apply Qcle_antisym; auto.
  - apply lowest_None in Hl as ->. by apply elem_of_nil in Hin.
Qed.

(** [second_lowest] returns [r] exactly when [r] is in the list, some
    element is strictly below it, and every other element is at least
    [r]. *)
Lemma second_lowest_Some (l : list Qc) (r : Qc) :
  second_lowest l = Some r ↔
  r ∈ l ∧ ∃ m, m ∈ l ∧ Qclt m r ∧ ∀ x, x ∈ l → x = m ∨ Qcle r x.
Proof.
  unfold second_lowest. split.
  - destruct (lowest l) as [m|] eqn:Hm; [|done]. simpl.
    apply lowest_Some in Hm as [Hm Hmin].
    intros [[Hlt Hr]%list_elem_of_filter Hrmin]%lowest_Some.
    split; [done|]. exists m. repeat split; [done..|].
    intros x Hx. destruct (Qcle_lt_or_eq _ _ (Hmin x Hx)) as [Hmx| ->]; [|by left].
    right. apply Hrmin. by apply list_elem_of_filter.
  - intros (Hr & m & Hm & Hlt & Hrest).
    assert (lowest l = Some m) as ->.
    { apply lowest_Some. split; [done|]. intros x Hx.
      destruct (Hrest x Hx) as [->|Hle]; [apply Qcle_refl|].
      apply Qclt_le_weak. eapply Qclt_le_trans; done. }
    simpl. apply lowest_Some. split.
    + by apply list_elem_of_filter.
    + intros x [Hmx Hx]%list_elem_of_filter.
      destruct (Hrest x Hx) as [->|Hle]; [|done].
      by destruct (Qclt_not_eq _ _ Hmx).
Qed.

Lemma second_lowest_ext (l k : list Qc) :
  (∀ x, x ∈ l ↔ x ∈ k) → second_lowest l = second_lowest k.
Proof.
  intros Hlk. apply option_eq. intros r. rewrite !second_lowest_Some.
  rewrite Hlk. split; intros (Hr & m & Hm & Hlt & Hrest);
    (split; [done|]); exists m.
  - rewrite <-Hlk. repeat split; [done..|]. intros x Hx. apply Hrest. by apply Hlk.
  - rewrite Hlk. repeat split; [done..|]. intros x Hx. apply Hrest. by apply Hlk.
Qed.

Lemma second_lowest_nil : second_lowest [] = None.
Proof. done. Qed.

(** The code's route (distinct values, sorted, index 1) and the minimum of
    what lies above the minimum are the same function. *)
Lemma get_second_lowest_rate_second_lowest (df : list MergedRow) :
  get_second_lowest_rate df = Ok (second_lowest (rate_column df)).
Proof.
  unfold get_second_lowest_rate, nsmallest.
  pose proof (StronglySorted_merge_sort Qcle (drop_duplicates (rate_column df)))
    as Hsorted.
  pose proof (merge_sort_Permutation Qcle (drop_duplicates (rate_column df)))
    as Hperm.
  assert (NoDup (merge_sort Qcle (drop_duplicates (rate_column df)))) as Hnd.
  { rewrite Hperm. apply NoDup_drop_duplicates. }
  assert (∀ x, x ∈ merge_sort Qcle (drop_duplicates (rate_column df))
               ↔ x ∈ rate_column df) as Hset.
  { intros x. by rewrite Hperm, elem_of_drop_duplicates. }
  rewrite <-(Permutation_length Hperm).
  destruct (merge_sort Qcle _) as [|a [|b s]]; simpl.
  - f_equal. symmetry. destruct (rate_column df) as [|x l]; [done|].
    assert (x ∈ @nil Qc) as Hx by (apply Hset; left).
    by apply elem_of_nil in Hx.
  - f_equal. symmetry. destruct (second_lowest _) as [r|] eqn:Hr; [|done].
    apply second_lowest_Some in Hr as (Hr & m & Hm & Hlt & _).
    apply Hset, list_elem_of_singleton in Hr, Hm. subst.
    by destruct (Qclt_not_eq _ _ Hlt).
  - f_equal. symmetry. apply second_lowest_Some.
    apply StronglySorted_inv in Hsorted as [Hsorted Ha].
    apply StronglySorted_inv in Hsorted as [_ Hb].
    apply NoDup_cons in Hnd as [Hab _].
    rewrite Forall_forall in Ha, Hb.
    split; [apply Hset; right; left|]. exists a.
    split; [apply Hset; left|]. split.
    + destruct (Qcle_lt_or_eq a b) as [?| ->]; [apply Ha; left|done|].
      destruct Hab. left.
    + intros x [->|[->|Hx]%elem_of_cons]%Hset%elem_of_cons; [by left|right..].
      * apply Qcle_refl.
      * by apply Hb.
Qed.

(** X1.  [get_second_lowest_rate] never raises; it returns a rate exactly when
    that rate is in the group, one rate of the group is strictly lower, and
    all the others are at least as high; it returns [None] exactly when the
    group has at most one distinct rate. *)
Theorem get_second_lowest_rate_characterised (df : list MergedRow) :
  (∃ v, get_second_lowest_rate df = Ok v)
  ∧ (∀ r, get_second_lowest_rate df = Ok (Some r) ↔
          r ∈ rate_column df
          ∧ ∃ m, m ∈ rate_column df ∧ Qclt m r
                 ∧ ∀ x, x ∈ rate_column df → x = m ∨ Qcle r x)
  ∧ (get_second_lowest_rate df = Ok None ↔
     ∀ x y, x ∈ rate_column df → y ∈ rate_column df → x = y).
Proof.
  rewrite get_second_lowest_rate_second_lowest.
  split; [by eexists|]. split.
  - intros r. rewrite <-second_lowest_Some. split; [by intros [= ->]|by intros ->].
  - split.
    + intros [= Hnone] x y Hx Hy.
      destruct (lowest (rate_column df)) as [m|] eqn:Hm.
      * apply lowest_Some in Hm as [Hm Hmin].
        assert (∀ z, z ∈ rate_column df → z = m) as Hall.
        { intros z Hz. destruct (Qcle_lt_or_eq _ _ (Hmin z Hz)) as [Hlt| ->]; [|done].
          unfold second_lowest in Hnone.
          rewrite (proj2 (lowest_Some _ m)) in Hnone by done. simpl in Hnone.
          apply lowest_None in Hnone.
          assert (z ∈ filter (λ x, Qclt m x) (rate_column df)) as Hin
            by (by apply list_elem_of_filter).
          rewrite Hnone in Hin. by apply elem_of_nil in Hin. }
        by rewrite (Hall x), (Hall y).
      * apply lowest_None in Hm. rewrite Hm in Hx. by apply elem_of_nil in Hx.
    + intros Heq. f_equal.
      destruct (second_lowest _) as [r|] eqn:Hr; [|done].
      apply second_lowest_Some in Hr as (Hr & m & Hm & Hlt & _).
      rewrite (Heq m r Hm Hr) in Hlt. by destruct (Qclt_not_eq _ _ Hlt).
Qed.

(** ** The frame of second lowest rates *)

Lemma groupby_keys (df : list MergedRow) :
  (groupby df).*1 = drop_duplicates (merged_key <$> df).
Proof.
  unfold groupby. rewrite <-list_fmap_compose. apply list_fmap_id.
Qed.

Lemma groupby_apply_keys (df : list MergedRow) rows :
  groupby_apply df = Ok (RatesByArea rows) →
  rows.*1 = drop_duplicates (merged_key <$> df).
Proof.
  unfold groupby_apply.
  destruct (series_apply _ (groupby df)) as [values|] eqn:Happ; simpl; [|done].
  destruct values as [|v0 values]; [done|].
  destruct (forallb isna (v0 :: values)); [done|]. intros [= <-].
  apply series_apply_length in Happ.
  rewrite fst_zip, groupby_keys; [done|].
  rewrite length_fmap. apply Nat.eq_le_incl. symmetry. exact Happ.
Qed.

Lemma matches_not_elem_of (k : RateAreaKey) rows :
  k ∉ rows.*1 → matches k rows = [].
Proof.
  intros Hk. unfold matches. rewrite filter_none; [done|].
  intros [k' v] Hin Heq. simpl in Heq. subst k'. apply Hk.
  apply list_elem_of_fmap. by exists (k, v).
Qed.

Lemma matches_NoDup (k : RateAreaKey) (v : float64) rows :
  NoDup rows.*1 → (k, v) ∈ rows → matches k rows = [v].
Proof.
  unfold matches. induction rows as [|[k' v'] rows IH]; simpl.
  - by intros _ ?%elem_of_nil.
  - intros [Hk' Hnd]%NoDup_cons Hin. rewrite filter_cons. simpl.
    apply elem_of_cons in Hin as [[= -> ->]|Hin].
    + rewrite decide_True by done. simpl. f_equal.
      by apply (matches_not_elem_of k' rows).
    + rewrite decide_False; [by apply IH|].
      intros ->. apply Hk'. apply list_elem_of_fmap. by exists (k, v).
Qed.

(** With distinct keys on the right, a left join gives every left row
    exactly one cell. *)
Lemma joined_cells_NoDup (k : RateAreaKey) rows :
  NoDup rows.*1 → joined_cells k rows = [rate_for rows k].
Proof.
  intros Hnd. unfold joined_cells, rate_for.
  destruct (decide (k ∈ rows.*1)) as [Hin|Hout].
  - apply list_elem_of_fmap in Hin as ([k' v] & -> & Hin). simpl.
    by rewrite (matches_NoDup k' v rows Hnd Hin).
  - by rewrite matches_not_elem_of.
Qed.

Lemma left_join_cells (left : list ZipRow) rows (cell : ZipRow → float64) :
  (∀ r, r ∈ left → joined_cells (zip_key r.1) rows = [cell r]) →
  left_join left rows = (λ r, (r.1, r.2 ++ [cell r])) <$> left.
Proof.
  unfold left_join. induction left as [|r left IH]; intros Hcell; [done|].
  rewrite bind_cons, fmap_cons, Hcell by left. simpl. f_equal.
  apply IH. intros r' Hr'. apply Hcell. by right.
Qed.

(** X2.  The frame that [calculate_second_lowest_rates] assigns has one row per
    rate area of [merged_data], no area twice, and each row holds the
    second lowest of the rates joined to its area. *)
Theorem second_lowest_rates_frame (self self' : SLCSPCalculator) df rows :
  merged_data self = Some df →
  calculate_second_lowest_rates self = (Ok (), self') →
  second_lowest_rates self' = Some (RatesByArea rows) →
  NoDup rows.*1
  ∧ (∀ k, k ∈ rows.*1 ↔ ∃ r, r ∈ df ∧ merged_key r = k)
  ∧ (∀ k v, (k, v) ∈ rows → v = second_lowest (group_rates df k)).
Proof.
  unfold calculate_second_lowest_rates, bind, getattr, lift. intros ->.
  destruct (groupby_apply df) as [rf|] eqn:Hagg; simpl; [|done].
  intros [= <-]. simpl. intros [= ->].
  pose proof (groupby_apply_keys _ _ Hagg) as Hkeys.
  split; [rewrite Hkeys; apply NoDup_drop_duplicates|]. split.
  - intros k. rewrite Hkeys, elem_of_drop_duplicates, list_elem_of_fmap.
    split; intros (r & ? & ?); by exists r.
  - intros k v Hin. pose proof (groupby_apply_rows _ _ _ _ Hagg Hin) as Hv.
    rewrite get_second_lowest_rate_second_lowest in Hv. by injection Hv as <-.
Qed.

(** ** [merge_zip_and_rate] *)

(** X4.  When the frame of second lowest rates has no area twice and the
    mapping has no [second_lowest_rate] column yet, [merge_zip_and_rate]
    keeps every mapping row, in order, and appends to each exactly one
    cell: the rate of the row's area, NaN when the frame has no row for
    that area.  Nothing else of the object changes. *)
Theorem merge_zip_and_rate_one_to_one (self : SLCSPCalculator) rows :
  second_lowest_rates self = Some (RatesByArea rows) →
  NoDup rows.*1 →
  "second_lowest_rate" ∉ zf_columns (zipcode_data self) →
  ∃ self',
    merge_zip_and_rate self = (Ok (), self')
    ∧ zf_columns (zipcode_data self')
      = zf_columns (zipcode_data self) ++ ["second_lowest_rate"]
    ∧ zf_rows (zipcode_data self')
      = (λ r, (r.1, r.2 ++ [rate_for rows (zip_key r.1)])) <$> zf_rows (zipcode_data self)
    ∧ plans_data self' = plans_data self
    ∧ slcsp_data self' = slcsp_data self.
Proof.
  intros Hrates Hnd Hcol.
  unfold merge_zip_and_rate, bind, getattr, lift. rewrite Hrates.
  unfold merge_left. rewrite decide_False by done. simpl.
  eexists. split; [done|]. simpl. split; [done|]. split; [|done].
  apply left_join_cells. intros r _. by apply joined_cells_NoDup.
Qed.

Lemma merge_zip_and_rate_one_to_one_witness :
  let self :=
    (filter_silver_plans >>> merge_data >>> calculate_second_lowest_rates)
      scenario_object in
  let rows := [(("AA", 1), Some (Qc_of_Z 150)); (("AA", 2), None)] in
  (second_lowest_rates self.2 = Some (RatesByArea rows)
   ∧ NoDup rows.*1
   ∧ "second_lowest_rate" ∉ zf_columns (zipcode_data self.2))
  ∧ ∃ self',
      merge_zip_and_rate self.2 = (Ok (), self')
      ∧ zf_columns (zipcode_data self')
        = zf_columns (zipcode_data self.2) ++ ["second_lowest_rate"]
      ∧ zf_rows (zipcode_data self')
        = (λ r, (r.1, r.2 ++ [rate_for rows (zip_key r.1)]))
            <$> zf_rows (zipcode_data self.2)
      ∧ plans_data self' = plans_data self.2
      ∧ slcsp_data self' = slcsp_data self.2.
Proof.
  intros self rows.
  assert (second_lowest_rates self.2 = Some (RatesByArea rows)) as Hrates
    by (vm_compute; reflexivity).
  assert (NoDup rows.*1) as Hnd.
  { simpl. repeat constructor; rewrite ?elem_of_cons, ?elem_of_nil; intros H;
      repeat destruct H as [H|H]; done. }
  assert ("second_lowest_rate" ∉ zf_columns (zipcode_data self.2)) as Hcol.
  { simpl. apply not_elem_of_nil. }
  split; [done|].
  exact (merge_zip_and_rate_one_to_one self.2 rows Hrates Hnd Hcol).
Defined.

(** ** The mapping after the first four stages *)

(** The rates joined to the area of a mapping row are the Silver rates of
    that area. *)
Lemma group_rates_silver_rates (entries : list ZipEntry) (plans : list Plan) (e : ZipEntry) :
  e ∈ entries →
  ∀ x, x ∈ group_rates
             (merge_inner ((λ e, (e, [])) <$> entries)
                (filter (λ p, metal_level p = "Silver") plans))
             (zip_key e)
       ↔ x ∈ silver_rates plans (zip_key e).
Proof.
  intros He x. split; [apply rate_column_group|].
  unfold silver_rates, group_rates, rate_column, merge_inner.
  intros (p & -> & [Hk Hp]%list_elem_of_filter)%list_elem_of_fmap.
  apply list_elem_of_fmap. exists ((e, []), p). split; [done|].
  apply list_elem_of_filter. split; [done|].
  apply list_elem_of_bind. exists (e, []). split.
  - apply list_elem_of_fmap. exists p. split; [done|].
    by apply list_elem_of_filter.
  - apply list_elem_of_fmap. by exists e.
Qed.

(** An area is a key of [merged_data] when a mapping row lies in it and it
    has a Silver plan. *)
Lemma merged_key_elem_of (entries : list ZipEntry) (plans : list Plan) (k : RateAreaKey) :
  k ∈ merged_key <$>
        merge_inner ((λ e, (e, [])) <$> entries)
          (filter (λ p, metal_level p = "Silver") plans)
  ↔ (∃ e, e ∈ entries ∧ zip_key e = k) ∧ silver_rates plans k ≠ [].
Proof.
  unfold merge_inner, silver_rates. split.
  - intros (m & -> & Hm)%list_elem_of_fmap.
    apply list_elem_of_bind in Hm as (l & Hm & Hl).
    apply list_elem_of_fmap in Hm as (p & -> & [Hk Hp]%list_elem_of_filter).
    apply list_elem_of_fmap in Hl as (e & -> & He). simpl in *. split.
    + exists e. split; [done|]. by rewrite <-Hk.
    + intros Hnil. assert (rate p ∈ @nil Qc) as Hin; [|by apply elem_of_nil in Hin].
      rewrite <-Hnil. apply list_elem_of_fmap. exists p. split; [done|].
      by apply list_elem_of_filter.
  - intros [(e & He & <-) Hne].
    destruct (filter (λ p, plan_key p = zip_key e) _) as [|p ps] eqn:Hf; [done|].
    assert (p ∈ filter (λ p, plan_key p = zip_key e)
                  (filter (λ p, metal_level p = "Silver") plans))
      as [Hk Hp]%list_elem_of_filter by (rewrite Hf; left).
    apply list_elem_of_fmap. exists ((e, []), p). split; [done|].
    apply list_elem_of_bind. exists (e, []). split.
    + apply list_elem_of_fmap. exists p. split; [done|].
      by apply list_elem_of_filter.
    + apply list_elem_of_fmap. by exists e.
Qed.

(** In the frame of second lowest rates, the rate for the area of a
    mapping row is the second lowest Silver rate of that area. *)
Lemma rate_for_area_rate (entries : list ZipEntry) (plans : list Plan) rows (e : ZipEntry) :
  groupby_apply
    (merge_inner ((λ e, (e, [])) <$> entries)
       (filter (λ p, metal_level p = "Silver") plans))
  = Ok (RatesByArea rows) →
  e ∈ entries →
  NoDup rows.*1 ∧ rate_for rows (zip_key e) = area_rate plans (zip_key e).
Proof.
  intros Hagg He. pose proof (groupby_apply_keys _ _ Hagg) as Hkeys.
  assert (NoDup rows.*1) as Hnd by (rewrite Hkeys; apply NoDup_drop_duplicates).
  split; [done|]. unfold rate_for, area_rate.
  destruct (decide (zip_key e ∈ rows.*1)) as [Hin|Hout].
  - apply list_elem_of_fmap in Hin as ([k v] & Hk & Hin). simpl in Hk. subst k.
    rewrite (matches_NoDup _ v rows Hnd Hin).
    pose proof (groupby_apply_rows _ _ _ _ Hagg Hin) as Hv.
    rewrite get_second_lowest_rate_second_lowest in Hv. injection Hv as <-.
    apply second_lowest_ext. by apply group_rates_silver_rates.
  - rewrite matches_not_elem_of by done.
    rewrite Hkeys, elem_of_drop_duplicates, merged_key_elem_of in Hout.
    destruct (silver_rates plans (zip_key e)) as [|x l] eqn:Hs; [done|].
    destruct Hout. split; [by exists e|done].
Qed.

Lemma resolve_stages_zipcode_data entries targets plans self' :
  resolve_stages (fresh entries targets plans) = (Ok (), self') →
  zipcode_data self' = rated_mapping entries plans.
Proof.
  intros (rows & Hagg & ->)%resolve_stages_fresh. unfold rated_mapping. f_equal.
  rewrite (left_join_cells _ rows (λ r, area_rate plans (zip_key r.1))).
  - by rewrite <-list_fmap_compose.
  - intros r (e & -> & He)%list_elem_of_fmap. simpl.
    destruct (rate_for_area_rate _ _ _ e Hagg He) as [Hnd <-].
    by apply joined_cells_NoDup.
Qed.

Lemma resolve_stages_inputs (self self' : SLCSPCalculator) r :
  resolve_stages self = (r, self') →
  plans_data self' = plans_data self ∧ slcsp_data self' = slcsp_data self.
Proof.
  intros Hrun.
  assert (preserves plans_data resolve_stages ∧ preserves slcsp_data resolve_stages)
    as [Hp Hs].
  { unfold resolve_stages. split;
      repeat (apply preserves_bind;
              [apply stage_preserves_inputs; repeat constructor|intros _]);
      apply stage_preserves_inputs; repeat constructor. }
  specialize (Hp self). specialize (Hs self). by rewrite Hrun in Hp, Hs.
Qed.

(** X5.  Take a freshly loaded object with a mapping row in a rate area that
    has a Silver plan.  When the first four stages complete on it, the
    mapping has one appended column, [second_lowest_rate], its rows are the
    loaded rows in their order, and the cell of each row is the second
    lowest distinct Silver rate of the row's (state, rate_area), NaN when
    that area has fewer than two distinct Silver rates.  The plans and the
    targets are as loaded. *)
Theorem resolve_stages_rated_mapping entries targets plans self' (e0 : ZipEntry) :
  e0 ∈ entries → silver_rates plans (zip_key e0) ≠ [] →
  resolve_stages (fresh entries targets plans) = (Ok (), self') →
  zipcode_data self' = rated_mapping entries plans
  ∧ plans_data self' = plans
  ∧ slcsp_data self' = unrated targets.
Proof.
  intros _ _ Hrun. split; [by eapply resolve_stages_zipcode_data|].
  by apply resolve_stages_inputs in Hrun.
Qed.

Lemma resolve_stages_rated_mapping_witness :
  let entries := [entry 1 "AA" 1; entry 2 "AA" 2; entry 3 "AA" 1; entry 3 "AA" 2] in
  let self' := (resolve_stages scenario_object).2 in
  let e0 := entry 2 "AA" 2 in
  (e0 ∈ entries ∧ silver_rates (plans_data scenario_object) (zip_key e0) ≠ []
   ∧ resolve_stages scenario_object = (Ok (), self'))
  ∧ zipcode_data self' = rated_mapping entries (plans_data scenario_object)
  ∧ plans_data self' = plans_data scenario_object
  ∧ slcsp_data self' = unrated [1; 2; 3].
Proof.
  intros entries self' e0.
  assert (e0 ∈ entries) as He0 by (right; left).
  assert (silver_rates (plans_data scenario_object) (zip_key e0) ≠ []) as Hne0
    by (vm_compute; discriminate).
  assert (resolve_stages scenario_object = (Ok (), self')) as Hrun
    by (vm_compute; reflexivity).
  split; [exact (conj He0 (conj Hne0 Hrun))|].
  exact (resolve_stages_rated_mapping entries [1; 2; 3] _ self' e0 He0 Hne0 Hrun).
Defined.

(** ** The run as a function of the loaded inputs *)

Lemma series_apply_ext {A B} (f g : A → result B) (l : list A) :
  (∀ x, x ∈ l → f x = g x) → series_apply f l = series_apply g l.
Proof.
  induction l as [|x l IH]; intros Hfg; [done|]. simpl.
  rewrite (Hfg x) by left. rewrite IH; [done|].
  intros y Hy. apply Hfg. by right.
Qed.

Lemma series_apply_pure {A B} (h : A → B) (l : list A) :
  series_apply (λ x, Ok (h x)) l = Ok (h <$> l).
Proof.
  induction l as [|x l IH]; [done|]. simpl. by rewrite IH.
Qed.

Lemma series_apply_lookup {A B} (f : A → result B) (l : list A) ys i x :
  series_apply f l = Ok ys → l !! i = Some x →
  ∃ y, ys !! i = Some y ∧ f x = Ok y.
Proof.
  revert ys i. induction l as [|a l IH]; intros ys i; [done|]. simpl.
  destruct (f a) as [b|] eqn:Hfa; simpl; [|done].
  destruct (series_apply f l) as [bs|]; simpl; [|done].
  intros [= <-]. destruct i as [|i]; simpl.
  - intros [= <-]. by exists b.
  - intros Hx. by apply IH.
Qed.

Lemma series_apply_Raise {A B} (f : A → result B) (l : list A) e :
  series_apply f l = Raise e → ∃ x, x ∈ l ∧ f x = Raise e.
Proof.
  induction l as [|a l IH]; [done|]. simpl.
  destruct (f a) as [b|e'] eqn:Hfa; simpl.
  - destruct (series_apply f l) as [bs|e'']; simpl; [done|].
    intros [= <-]. destruct IH as (x & Hx & Hfx); [done|].
    exists x. split; [by right|done].
  - intros [= <-]. exists a. split; [left|done].
Qed.

Lemma filter_fmap {A B} (P : B → Prop) `{∀ y, Decision (P y)} (f : A → B) (l : list A) :
  filter P (f <$> l) = f <$> filter (λ x, P (f x)) l.
Proof.
  induction l as [|x l IH]; [done|].
  rewrite fmap_cons, !filter_cons. destruct (decide (P (f x))); by rewrite IH.
Qed.

(** On the mapping that the first four stages leave, [get_rate] is
    [resolve]. *)
Lemma get_rate_rated_mapping (self : SLCSPCalculator) entries plans (z : Z) :
  zipcode_data self = rated_mapping entries plans →
  get_rate self z = resolve entries plans z.
Proof.
  intros Hzd. unfold get_rate, resolve. rewrite Hzd. unfold rated_mapping. simpl.
  rewrite (filter_fmap (λ r : ZipRow, zipcode r.1 = z)). simpl.
  rewrite <-!list_fmap_compose.
  change ((λ r : ZipRow, rate_area r.1) ∘ _) with rate_area.
  destruct (decide (1 < nunique (rate_area <$> filter (λ e, zipcode e = z) entries))%nat);
    [done|].
  change ((λ r : ZipEntry * list float64, default NaN (r.2 !! 0%nat)) ∘ _)
    with (λ e, area_rate plans (zip_key e)).
  destruct (existsb isna _); [done|].
  by destruct ((λ e, area_rate plans (zip_key e)) <$> filter (λ e, zipcode e = z) entries).
Qed.

Lemma calculate_slcsp_split (self : SLCSPCalculator) :
  calculate_slcsp self
  = match resolve_stages self with
    | (Ok _, self') => determine_rate self'
    | (Raise e, self') => (Raise e, self')
    end.
Proof.
  unfold calculate_slcsp, resolve_stages, bind.
  destruct (filter_silver_plans self) as [[[]|e1] s1]; [|done].
  destruct (merge_data s1) as [[[]|e2] s2]; [|done].
  destruct (calculate_second_lowest_rates s2) as [[[]|e3] s3]; [|done].
  by destruct (merge_zip_and_rate s3) as [[[]|e4] s4].
Qed.

Lemma target_zipcode_unrated (targets : list Z) :
  target_zipcode <$> unrated targets = targets.
Proof.
  unfold unrated. rewrite <-list_fmap_compose. apply list_fmap_id.
Qed.

Lemma zip_with_rated_unrated (targets : list Z) (rates : list resolved) :
  zip_with rated (unrated targets) rates
  = zip_with (λ z r, {| target_zipcode := z; target_rate := Some (format_rate r) |})
      targets rates.
Proof.
  revert rates. induction targets as [|z targets IH]; intros [|r rates]; [done..|].
  simpl. f_equal. apply IH.
Qed.

(** ** How the aggregation of a freshly loaded object ends *)

Lemma forallb_isna_fmap {A} (f : A → float64) (l : list A) :
  forallb isna (f <$> l) = true ↔ ∀ x, x ∈ l → f x = NaN.
Proof.
  induction l as [|a l IH]; simpl.
  - split; [|done]. by intros _ x ?%elem_of_nil.
  - rewrite andb_true_iff, IH. split.
    + intros [Ha Hl] x [->|Hx]%elem_of_cons; [by destruct (f a)|by apply Hl].
    + intros Hall. split; [rewrite (Hall a) by left; done|].
      intros x Hx. apply Hall. by right.
Qed.

(** The aggregation in terms of [second_lowest]. *)
Lemma groupby_apply_second_lowest (df : list MergedRow) :
  groupby_apply df
  = match (λ k, second_lowest (group_rates df k)) <$> drop_duplicates (merged_key <$> df) with
    | [] => Raise ValueError
    | v :: vs =>
        if forallb isna (v :: vs) then Ok NoColumns
        else Ok (RatesByArea (zip (drop_duplicates (merged_key <$> df)) (v :: vs)))
    end.
Proof.
  unfold groupby_apply.
  rewrite (series_apply_ext _ (λ g, Ok (second_lowest (rate_column g.2))))
    by (intros; apply get_second_lowest_rate_second_lowest).
  rewrite series_apply_pure, groupby_keys. simpl.
  unfold groupby. rewrite <-list_fmap_compose.
  change ((λ g : RateAreaKey * list MergedRow, second_lowest (rate_column g.2)) ∘ _)
    with (λ k, second_lowest (group_rates df k)).
  by destruct (_ <$> drop_duplicates (merged_key <$> df)).
Qed.

(** The rate areas of the mapping that have a Silver plan. *)
Lemma priced_area_elem_of (entries : list ZipEntry) (plans : list Plan) (k : RateAreaKey) :
  k ∈ drop_duplicates
        (merged_key <$> merge_inner ((λ e, (e, [])) <$> entries)
                          (filter (λ p, metal_level p = "Silver") plans))
  ↔ (∃ e, e ∈ entries ∧ zip_key e = k) ∧ silver_rates plans k ≠ [].
Proof. by rewrite elem_of_drop_duplicates, merged_key_elem_of. Qed.

Lemma groupby_apply_fresh (entries : list ZipEntry) (plans : list Plan) :
  let keys :=
    drop_duplicates
      (merged_key <$> merge_inner ((λ e, (e, [])) <$> entries)
                        (filter (λ p, metal_level p = "Silver") plans)) in
  groupby_apply (merge_inner ((λ e, (e, [])) <$> entries)
                   (filter (λ p, metal_level p = "Silver") plans))
  = match area_rate plans <$> keys with
    | [] => Raise ValueError
    | v :: vs =>
        if forallb isna (v :: vs) then Ok NoColumns
        else Ok (RatesByArea (zip keys (v :: vs)))
    end.
Proof.
  intros keys. rewrite groupby_apply_second_lowest. fold keys.
  assert ((λ k, second_lowest
                  (group_rates
                     (merge_inner ((λ e, (e, [])) <$> entries)
                        (filter (λ p, metal_level p = "Silver") plans)) k)) <$> keys
          = area_rate plans <$> keys) as ->; [|done].
  apply list_fmap_ext. intros i k Hk%list_elem_of_lookup_2.
  apply priced_area_elem_of in Hk as [(e & He & <-) _].
  apply second_lowest_ext. by apply group_rates_silver_rates.
Qed.

(** No mapping row lies in an area with a Silver plan: the aggregation has
    no group. *)
Lemma groupby_apply_fresh_no_group (entries : list ZipEntry) (plans : list Plan) :
  (∀ e, e ∈ entries → silver_rates plans (zip_key e) = []) →
  groupby_apply (merge_inner ((λ e, (e, [])) <$> entries)
                   (filter (λ p, metal_level p = "Silver") plans))
  = Raise ValueError.
Proof.
  intros Hnone. rewrite groupby_apply_fresh.
  destruct (drop_duplicates _) as [|k ks] eqn:Hkeys; [done|].
  assert (k ∈ k :: ks) as Hk by left. rewrite <-Hkeys in Hk.
  apply priced_area_elem_of in Hk as [(e & He & <-) Hne].
  by destruct Hne; apply Hnone.
Qed.

(** Some area of the mapping has a Silver plan, and none has a second lowest
    rate. *)
Lemma groupby_apply_fresh_no_rate (entries : list ZipEntry) (plans : list Plan) (e : ZipEntry) :
  e ∈ entries → silver_rates plans (zip_key e) ≠ [] →
  (∀ e', e' ∈ entries → area_rate plans (zip_key e') = NaN) →
  groupby_apply (merge_inner ((λ e, (e, [])) <$> entries)
                   (filter (λ p, metal_level p = "Silver") plans))
  = Ok NoColumns.
Proof.
  intros He Hne Hnan. rewrite groupby_apply_fresh.
  assert (zip_key e ∈ drop_duplicates
            (merged_key <$> merge_inner ((λ e, (e, [])) <$> entries)
                              (filter (λ p, metal_level p = "Silver") plans))) as Hk.
  { apply priced_area_elem_of. split; [by exists e|done]. }
  assert (forallb isna
            (area_rate plans <$> drop_duplicates
               (merged_key <$> merge_inner ((λ e, (e, [])) <$> entries)
                                 (filter (λ p, metal_level p = "Silver") plans)))
          = true) as Hall.
  { apply forallb_isna_fmap. intros k [(e' & He' & <-) _]%priced_area_elem_of.
    by apply Hnan. }
  destruct (drop_duplicates _) as [|k ks]; [by apply elem_of_nil in Hk|].
  rewrite fmap_cons in *. by rewrite Hall.
Qed.

(** Some area of the mapping has a second lowest rate. *)
Lemma groupby_apply_fresh_rate (entries : list ZipEntry) (plans : list Plan) (e : ZipEntry) :
  e ∈ entries → area_rate plans (zip_key e) ≠ NaN →
  ∃ rows,
    groupby_apply (merge_inner ((λ e, (e, [])) <$> entries)
                     (filter (λ p, metal_level p = "Silver") plans))
    = Ok (RatesByArea rows).
Proof.
  intros He Hrate. rewrite groupby_apply_fresh.
  assert (zip_key e ∈ drop_duplicates
            (merged_key <$> merge_inner ((λ e, (e, [])) <$> entries)
                              (filter (λ p, metal_level p = "Silver") plans))) as Hk.
  { apply priced_area_elem_of. split; [by exists e|].
    intros Hnil. apply Hrate. unfold area_rate. by rewrite Hnil. }
  destruct (forallb isna
              (area_rate plans <$> drop_duplicates
                 (merged_key <$> merge_inner ((λ e, (e, [])) <$> entries)
                                   (filter (λ p, metal_level p = "Silver") plans))))
    eqn:Hall.
  { destruct Hrate. by apply (proj1 (forallb_isna_fmap _ _) Hall). }
  destruct (drop_duplicates _) as [|k ks]; [by apply elem_of_nil in Hk|].
  rewrite fmap_cons in *. rewrite Hall. by eexists.
Qed.

(** The result of the first four stages on a freshly loaded object is
    decided by the aggregation. *)
Lemma resolve_stages_fresh_result entries targets plans :
  (resolve_stages (fresh entries targets plans)).1
  = match groupby_apply (merge_inner ((λ e, (e, [])) <$> entries)
                           (filter (λ p, metal_level p = "Silver") plans)) with
    | Ok (RatesByArea _) => Ok ()
    | Ok NoColumns => Raise (KeyError "state")
    | Raise e => Raise e
    end.
Proof.
  unfold resolve_stages, filter_silver_plans, merge_data,
    calculate_second_lowest_rates, merge_zip_and_rate, bind, getattr, lift.
  simpl. by destruct (groupby_apply _) as [[rows|]|e].
Qed.

(** ** The whole run on a freshly loaded object *)

Lemma some_silver_area_cases (entries : list ZipEntry) (plans : list Plan) :
  (∀ e, e ∈ entries → silver_rates plans (zip_key e) = [])
  ∨ some_silver_area entries plans.
Proof.
  destruct (decide (Forall (λ e, silver_rates plans (zip_key e) = []) entries))
    as [Hnone|Hsome].
  - left. by apply Forall_forall.
  - right. apply not_Forall_Exists in Hsome; [|intros; apply _].
    apply Exists_exists in Hsome as (e & He & Hne). by exists e.
Qed.

(** No mapping row lies in an area with a Silver plan: the run ends in the
    aggregation, as [groupby_apply] has it. *)
Lemma calculate_slcsp_no_group entries targets plans :
  (∀ e, e ∈ entries → silver_rates plans (zip_key e) = []) →
  (calculate_slcsp (fresh entries targets plans)).1 = Raise ValueError
  ∧ slcsp_data (calculate_slcsp (fresh entries targets plans)).2 = unrated targets.
Proof.
  intros Hnone. rewrite calculate_slcsp_split.
  destruct (resolve_stages (fresh entries targets plans)) as [r s] eqn:Hrun.
  pose proof (resolve_stages_fresh_result entries targets plans) as Hres.
  rewrite Hrun in Hres. simpl in Hres.
  destruct (resolve_stages_inputs _ _ _ Hrun) as [_ Hs]. simpl in Hs.
  rewrite groupby_apply_fresh_no_group in Hres by done.
  subst r. simpl. by rewrite Hs.
Qed.

Lemma calculate_slcsp_run_outcome entries targets plans :
  some_silver_area entries plans →
  ((calculate_slcsp (fresh entries targets plans)).1,
   slcsp_data (calculate_slcsp (fresh entries targets plans)).2)
  = run_outcome entries targets plans.
Proof.
  intros (e & He & Hne).
  unfold run_outcome. rewrite calculate_slcsp_split.
  destruct (resolve_stages (fresh entries targets plans)) as [r s] eqn:Hrun.
  pose proof (resolve_stages_fresh_result entries targets plans) as Hres.
  rewrite Hrun in Hres. simpl in Hres.
  destruct (resolve_stages_inputs _ _ _ Hrun) as [_ Hs]. simpl in Hs.
  destruct (decide (Forall _ entries)) as [Hnan|Hrate].
  { rewrite (groupby_apply_fresh_no_rate _ _ e) in Hres;
      [|done|done|by apply Forall_forall].
    subst r. simpl. by rewrite Hs. }
  apply not_Forall_Exists in Hrate; [|intros; apply _].
  apply Exists_exists in Hrate as (e' & He' & Hr).
  destruct (groupby_apply_fresh_rate _ _ e' He' Hr) as [rows Hagg].
  rewrite Hagg in Hres. subst r.
  pose proof (resolve_stages_zipcode_data _ _ _ _ Hrun) as Hzd.
  destruct (determine_rate_cases s)
    as [(e0 & Happ & Hdet)|(rates & s' & Happ & Hlen & Hdet & Hsd & _)];
    rewrite Hdet; simpl;
    unfold target_zipcodes in Happ; rewrite Hs, target_zipcode_unrated in Happ;
    rewrite (series_apply_ext _ (resolve entries plans)) in Happ
      by (intros; by apply get_rate_rated_mapping);
    rewrite Happ.
  - by rewrite Hs.
  - by rewrite Hsd, Hs.
Qed.

(** ** Resolution of a ZIP code *)

Lemma second_lowest_None (l : list Qc) :
  second_lowest l = None ↔ ∀ x y, x ∈ l → y ∈ l → x = y.
Proof.
  split.
  - intros Hnone x y Hx Hy.
    destruct (lowest l) as [m|] eqn:Hm.
    + apply lowest_Some in Hm as [Hm Hmin].
      assert (∀ z, z ∈ l → z = m) as Hall.
      { intros z Hz. destruct (Qcle_lt_or_eq _ _ (Hmin z Hz)) as [Hlt| ->]; [|done].
        unfold second_lowest in Hnone.
        rewrite (proj2 (lowest_Some _ m)) in Hnone by done. simpl in Hnone.
        apply lowest_None in Hnone.
        assert (z ∈ filter (λ x, Qclt m x) l) as Hin
          by (by apply list_elem_of_filter).
        rewrite Hnone in Hin. by apply elem_of_nil in Hin. }
      by rewrite (Hall x), (Hall y).
    + apply lowest_None in Hm. rewrite Hm in Hx. by apply elem_of_nil in Hx.
  - intros Heq. destruct (second_lowest l) as [r|] eqn:Hr; [|done].
    apply second_lowest_Some in Hr as (Hr & m & Hm & Hlt & _).
    rewrite (Heq m r Hm Hr) in Hlt. by destruct (Qclt_not_eq _ _ Hlt).
Qed.

Lemma nunique_gt_1 {A} `{EqDecision A} (l : list A) :
  (1 < nunique l)%nat ↔ ∃ x y, x ∈ l ∧ y ∈ l ∧ x ≠ y.
Proof.
  split.
  - unfold nunique. intros Hlen.
    pose proof (NoDup_drop_duplicates l) as Hnd.
    assert (∀ x, x ∈ drop_duplicates l → x ∈ l) as Hin
      by (intros x; apply elem_of_drop_duplicates).
    destruct (drop_duplicates l) as [|a [|b u]]; simpl in Hlen; [lia..|].
    exists a, b. split; [apply Hin; left|]. split; [apply Hin; right; left|].
    apply NoDup_cons in Hnd as [Hab _]. intros ->. apply Hab. left.
  - intros (x & y & Hx & Hy & Hxy).
    destruct (decide (1 < nunique l)%nat) as [|Hle]; [done|].
    destruct Hxy. apply (proj1 (nunique_le_1 l)); [lia|done..].
Qed.

Lemma existsb_isna_fmap {A} (f : A → float64) (l : list A) :
  existsb isna (f <$> l) = true ↔ ∃ x, x ∈ l ∧ f x = NaN.
Proof.
  induction l as [|a l IH]; simpl.
  - split; [done|]. by intros (x & ?%elem_of_nil & _).
  - rewrite orb_true_iff, IH. split.
    + intros [Ha|(x & Hx & Hfx)].
      * exists a. split; [left|]. by destruct (f a).
      * exists x. split; [by right|done].
    + intros (x & [->|Hx]%elem_of_cons & Hfx).
      * left. by rewrite Hfx.
      * right. by exists x.
Qed.

(** [resolve] gives the blank exactly for a ZIP code with two rate area
    numbers or with a row in an area without a second lowest rate. *)
Lemma resolve_Blank (entries : list ZipEntry) (plans : list Plan) (z : Z) :
  resolve entries plans z = Ok Blank ↔
  (∃ e1 e2, e1 ∈ entries ∧ e2 ∈ entries ∧ zipcode e1 = z ∧ zipcode e2 = z
            ∧ rate_area e1 ≠ rate_area e2)
  ∨ (∃ e, e ∈ entries ∧ zipcode e = z ∧ area_rate plans (zip_key e) = NaN).
Proof.
  unfold resolve.
  assert ((1 < nunique (rate_area <$> filter (λ e, zipcode e = z) entries))%nat
          ↔ ∃ e1 e2, e1 ∈ entries ∧ e2 ∈ entries ∧ zipcode e1 = z ∧ zipcode e2 = z
                     ∧ rate_area e1 ≠ rate_area e2) as Htwo.
  { rewrite nunique_gt_1. split.
    - intros (a & b & (e1 & -> & [? ?]%list_elem_of_filter)%list_elem_of_fmap
                & (e2 & -> & [? ?]%list_elem_of_filter)%list_elem_of_fmap & Hab).
      by exists e1, e2.
    - intros (e1 & e2 & H1 & H2 & Hz1 & Hz2 & Hab).
      exists (rate_area e1), (rate_area e2).
      split; [|split; [|done]]; apply list_elem_of_fmap; eexists;
        (split; [done|]); by apply list_elem_of_filter. }
  assert (existsb isna ((λ e, area_rate plans (zip_key e))
                          <$> filter (λ e, zipcode e = z) entries) = true
          ↔ ∃ e, e ∈ entries ∧ zipcode e = z ∧ area_rate plans (zip_key e) = NaN)
    as Hnan.
  { rewrite existsb_isna_fmap. split.
    - intros (e & [? ?]%list_elem_of_filter & ?). by exists e.
    - intros (e & ? & ? & ?). exists e. split; [by apply list_elem_of_filter|done]. }
  case_decide as Hn; [tauto|].
  destruct (existsb isna _) eqn:Hex; [tauto|].
  split.
  - by destruct (fmap (λ e, area_rate plans (zip_key e)) _).
  - intros [Hyes|Hyes]; [by apply Htwo in Hyes|].
    apply Hnan in Hyes. congruence.
Qed.

(** [resolve] raises exactly for a ZIP code without a mapping row, and then
    it raises [IndexError]. *)
Lemma resolve_Raise (entries : list ZipEntry) (plans : list Plan) (z : Z) (x : exn) :
  resolve entries plans z = Raise x ↔
  x = IndexError ∧ ∀ e, e ∈ entries → zipcode e ≠ z.
Proof.
  unfold resolve. split.
  - case_decide; [done|]. destruct (existsb isna _); [done|].
    destruct (filter (λ e, zipcode e = z) entries) as [|e0 rows] eqn:Hrows; [|done].
    intros [= <-]. split; [done|]. intros e He Hz.
    assert (e ∈ filter (λ e, zipcode e = z) entries) as Hin
      by (by apply list_elem_of_filter).
    rewrite Hrows in Hin. by apply elem_of_nil in Hin.
  - intros [-> Hnone]. rewrite filter_none; [done|]. intros e He Hz. by eapply Hnone.
Qed.

(** A number that [resolve] gives is the second lowest rate of the area of
    the first mapping row of the ZIP code. *)
Lemma resolve_Rate (entries : list ZipEntry) (plans : list Plan) (z : Z) (v : float64) :
  resolve entries plans z = Ok (Rate v) →
  ∃ q e, v = Some q ∧ e ∈ entries ∧ zipcode e = z
         ∧ area_rate plans (zip_key e) = Some q.
Proof.
  unfold resolve. case_decide; [done|].
  destruct (filter (λ e, zipcode e = z) entries) as [|e rows] eqn:Hrows.
  { by simpl. }
  rewrite fmap_cons. cbn [existsb].
  destruct (area_rate plans (zip_key e)) as [q|] eqn:Hq; [|done]. simpl.
  destruct (existsb isna _); [done|]. intros [= <-].
  assert (e ∈ filter (λ e, zipcode e = z) entries)
    as [? ?]%list_elem_of_filter by (rewrite Hrows; left).
  by exists q, e.
Qed.

(** A ZIP code all of whose mapping rows lie in one area that has a second
    lowest rate resolves to that rate. *)
Lemma resolve_one_area (entries : list ZipEntry) (plans : list Plan) (z : Z)
    (e0 : ZipEntry) (k : RateAreaKey) (r : Qc) :
  e0 ∈ entries → zipcode e0 = z →
  (∀ e, e ∈ entries → zipcode e = z → zip_key e = k) →
  area_rate plans k = Some r →
  resolve entries plans z = Ok (Rate (Some r)).
Proof.
  intros He0 Hz0 Hkey Hrate. unfold resolve.
  rewrite decide_False.
  2:{ apply Nat.le_ngt, nunique_le_1.
      intros a b (e1 & -> & [? ?]%list_elem_of_filter)%list_elem_of_fmap
                 (e2 & -> & [? ?]%list_elem_of_filter)%list_elem_of_fmap.
      assert (zip_key e1 = zip_key e2) as Heq by (by rewrite !Hkey).
      unfold zip_key in Heq. congruence. }
  assert ((λ e, area_rate plans (zip_key e)) <$> filter (λ e, zipcode e = z) entries
          = (λ _, Some r) <$> filter (λ e, zipcode e = z) entries) as ->.
  { apply list_fmap_ext. intros i e [? ?]%list_elem_of_lookup_2%list_elem_of_filter.
    by rewrite Hkey. }
  assert (e0 ∈ filter (λ e, zipcode e = z) entries) as Hin
    by (by apply list_elem_of_filter).
  destruct (existsb isna _) eqn:Hex.
  { apply existsb_isna_fmap in Hex as (? & _ & ?). done. }
  destruct (filter (λ e, zipcode e = z) entries); [by apply elem_of_nil in Hin|done].
Qed.

Lemma series_apply_elem_of {A B} (f : A → result B) (l : list A) ys y :
  series_apply f l = Ok ys → y ∈ ys → ∃ x, x ∈ l ∧ f x = Ok y.
Proof.
  revert ys. induction l as [|a l IH]; intros ys; simpl.
  - intros [= <-]. by intros ?%elem_of_nil.
  - destruct (f a) as [b|] eqn:Hfa; simpl; [|done].
    destruct (series_apply f l) as [bs|]; simpl; [|done].
    intros [= <-] [->|Hy]%elem_of_cons.
    + exists a. split; [left|done].
    + destruct (IH bs eq_refl Hy) as (x & Hx & Hfx). exists x. split; [by right|done].
Qed.

(** ** Rows of the target frame after a completed run *)

Lemma calculate_slcsp_fresh_rates entries targets plans self' :
  calculate_slcsp (fresh entries targets plans) = (Ok (), self') →
  ∃ rates,
    series_apply (resolve entries plans) targets = Ok rates
    ∧ slcsp_data self' = zip_with rated (unrated targets) rates.
Proof.
  intros Hrun.
  destruct (some_silver_area_cases entries plans) as [Hnone|Hsome].
  { apply (calculate_slcsp_no_group _ targets) in Hnone as [Hraise _].
    by rewrite Hrun in Hraise. }
  pose proof (calculate_slcsp_run_outcome entries targets plans Hsome) as Hout.
  rewrite Hrun in Hout. simpl in Hout. unfold run_outcome in Hout.
  case_decide; [done|].
  destruct (series_apply _ targets) as [rates|]; [|done].
  exists rates. split; [done|]. congruence.
Qed.

Lemma calculate_slcsp_fresh_row entries targets plans self' (i : nat) (z : Z) :
  calculate_slcsp (fresh entries targets plans) = (Ok (), self') →
  targets !! i = Some z →
  ∃ r, resolve entries plans z = Ok r
       ∧ slcsp_data self' !! i
         = Some {| target_zipcode := z; target_rate := Some (format_rate r) |}.
Proof.
  intros (rates & Happ & ->)%calculate_slcsp_fresh_rates Hz.
  destruct (series_apply_lookup _ _ _ _ _ Happ Hz) as (r & Hr & Hres).
  exists r. split; [done|]. apply lookup_zip_with_Some.
  exists {| target_zipcode := z; target_rate := None |}, r.
  split; [done|]. split; [|done].
  unfold unrated. by rewrite list_lookup_fmap, Hz.
Qed.

Lemma format_2f_two_decimals (q : Qc) : two_decimals (format_2f (Some q)) = true.
Proof.
  simpl. destruct (format_2f_abs_two_decimals (this q)). by case_decide.
Qed.

Lemma format_2f_not_blank (q : Qc) : format_2f (Some q) ≠ "".
Proof.
  intros Heq. pose proof (format_2f_two_decimals q) as Htwo.
  rewrite Heq in Htwo. done.
Qed.

(** X8.  On a freshly loaded object with a mapping row in a rate area that
    has a Silver plan, [calculate_slcsp] ends as [run_outcome] says and
    leaves the target frame [run_outcome] gives: [KeyError] when no area of
    the mapping has a second lowest rate, the exception of the first target
    that does not resolve, and otherwise every target with the text of its
    resolution.  Whenever it raises, no target has a rate. *)
Theorem calculate_slcsp_outcome entries targets plans (e0 : ZipEntry) :
  e0 ∈ entries → silver_rates plans (zip_key e0) ≠ [] →
  (calculate_slcsp (fresh entries targets plans)).1
  = (run_outcome entries targets plans).1
  ∧ slcsp_data (calculate_slcsp (fresh entries targets plans)).2
    = (run_outcome entries targets plans).2
  ∧ (∀ e, (run_outcome entries targets plans).1 = Raise e →
          (run_outcome entries targets plans).2 = unrated targets).
Proof.
  intros He0 Hne0.
  assert (some_silver_area entries plans) as Hsome by (by exists e0).
  rewrite <-(calculate_slcsp_run_outcome _ _ _ Hsome). split; [done|]. split; [done|].
  rewrite (calculate_slcsp_run_outcome _ _ _ Hsome). unfold run_outcome.
  intros e. case_decide; [done|].
  by destruct (series_apply _ targets).
Qed.

Lemma calculate_slcsp_outcome_witness :
  let entries := [entry 1 "AA" 1; entry 2 "AA" 2; entry 3 "AA" 1; entry 3 "AA" 2] in
  let plans := [silver "AA" 1 (Qc_of_Z 100); silver "AA" 1 (Qc_of_Z 150);
                silver "AA" 1 (Qc_of_Z 150); silver "AA" 2 (Qc_of_Z 90)] in
  let e0 := entry 2 "AA" 2 in
  (e0 ∈ entries ∧ silver_rates plans (zip_key e0) ≠ [])
  ∧ (calculate_slcsp (fresh entries [1; 99999] plans)).1
    = (run_outcome entries [1; 99999] plans).1
  ∧ slcsp_data (calculate_slcsp (fresh entries [1; 99999] plans)).2
    = (run_outcome entries [1; 99999] plans).2
  ∧ (∀ e, (run_outcome entries [1; 99999] plans).1 = Raise e →
          (run_outcome entries [1; 99999] plans).2 = unrated [1; 99999]).
Proof.
  intros entries plans e0.
  assert (e0 ∈ entries) as He0 by (right; left).
  assert (silver_rates plans (zip_key e0) ≠ []) as Hne0 by (vm_compute; discriminate).
  split; [exact (conj He0 Hne0)|].
  exact (calculate_slcsp_outcome entries [1; 99999] plans e0 He0 Hne0).
Defined.

(** X9.  On a freshly loaded object with a mapping row in a rate area that
    has a Silver plan, [calculate_slcsp] completes exactly when some rate
    area of the mapping offers two distinct Silver rates and every target
    ZIP code has a mapping row. *)
Theorem calculate_slcsp_completes_iff entries targets plans (e0 : ZipEntry) :
  e0 ∈ entries → silver_rates plans (zip_key e0) ≠ [] →
  (∃ self', calculate_slcsp (fresh entries targets plans) = (Ok (), self'))
  ↔ (∃ e x y, e ∈ entries ∧ x ∈ silver_rates plans (zip_key e)
              ∧ y ∈ silver_rates plans (zip_key e) ∧ x ≠ y)
    ∧ (∀ z, z ∈ targets → ∃ e, e ∈ entries ∧ zipcode e = z).
Proof.
  intros He0 Hne0.
  assert (some_silver_area entries plans) as Hsome by (by exists e0).
  pose proof (calculate_slcsp_run_outcome entries targets plans Hsome) as Hout.
  unfold run_outcome in Hout. split.
  - intros [self' Hrun]. rewrite Hrun in Hout. simpl in Hout.
    case_decide as Hnan; [done|].
    apply not_Forall_Exists in Hnan; [|intros; apply _].
    apply Exists_exists in Hnan as (e & He & Hrate). simpl in Hrate.
    destruct (series_apply _ targets) as [rates|] eqn:Happ; [|done]. split.
    + unfold area_rate in Hrate.
      destruct (second_lowest _) as [r|] eqn:Hr; [|done].
      apply second_lowest_Some in Hr as (Hr & m & Hm & Hlt & _).
      exists e, m, r. repeat split; [done..|]. by apply Qclt_not_eq.
    + intros z (i & Hz)%list_elem_of_lookup_1.
      destruct (series_apply_lookup _ _ _ _ _ Happ Hz) as (r & _ & Hres).
      destruct (filter (λ e, zipcode e = z) entries) as [|e1 rows] eqn:Hrows.
      * assert (resolve entries plans z = Raise IndexError) as Hraise; [|congruence].
        apply resolve_Raise. split; [done|]. intros e' He' Hz'.
        assert (e' ∈ filter (λ e, zipcode e = z) entries) as Hin
          by (by apply list_elem_of_filter).
        rewrite Hrows in Hin. by apply elem_of_nil in Hin.
      * assert (e1 ∈ filter (λ e, zipcode e = z) entries)
          as [? ?]%list_elem_of_filter by (rewrite Hrows; left).
        by exists e1.
  - intros [(e & x & y & He & Hx & Hy & Hxy) Hmapped].
    rewrite decide_False in Hout.
    2:{ rewrite Forall_forall. intros Hnan. apply Hxy.
        by apply (proj1 (second_lowest_None _) (Hnan e He)). }
    destruct (series_apply_Ok (resolve entries plans) targets) as [rates Happ].
    { intros z (e' & He' & Hz')%Hmapped.
      destruct (resolve entries plans z) as [r|x'] eqn:Hres; [by exists r|].
      apply resolve_Raise in Hres as [_ Hnone]. by destruct (Hnone e' He'). }
    rewrite Happ in Hout. injection Hout as Hres _.
    exists (calculate_slcsp (fresh entries targets plans)).2.
    destruct (calculate_slcsp (fresh entries targets plans)) as [[[]|] s]; done.
Qed.

Lemma calculate_slcsp_completes_iff_witness :
  let entries := [entry 1 "AA" 1; entry 2 "AA" 2; entry 3 "AA" 1; entry 3 "AA" 2] in
  let plans := [silver "AA" 1 (Qc_of_Z 100); silver "AA" 1 (Qc_of_Z 150);
                silver "AA" 1 (Qc_of_Z 150); silver "AA" 2 (Qc_of_Z 90)] in
  let e0 := entry 2 "AA" 2 in
  (e0 ∈ entries ∧ silver_rates plans (zip_key e0) ≠ [])
  ∧ ((∃ self', calculate_slcsp (fresh entries [1; 2; 3] plans) = (Ok (), self'))
     ↔ (∃ e x y, e ∈ entries ∧ x ∈ silver_rates plans (zip_key e)
                 ∧ y ∈ silver_rates plans (zip_key e) ∧ x ≠ y)
       ∧ (∀ z, z ∈ [1; 2; 3] → ∃ e, e ∈ entries ∧ zipcode e = z)).
Proof.
  intros entries plans e0.
  assert (e0 ∈ entries) as He0 by (right; left).
  assert (silver_rates plans (zip_key e0) ≠ []) as Hne0 by (vm_compute; discriminate).
  split; [exact (conj He0 Hne0)|].
  exact (calculate_slcsp_completes_iff entries [1; 2; 3] plans e0 He0 Hne0).
Defined.

Lemma resolve_ext (entries : list ZipEntry) (plans plans' : list Plan) (z : Z) :
  (∀ e, e ∈ entries → area_rate plans (zip_key e) = area_rate plans' (zip_key e)) →
  resolve entries plans z = resolve entries plans' z.
Proof.
  intros Hrate. unfold resolve.
  assert ((λ e, area_rate plans (zip_key e)) <$> filter (λ e, zipcode e = z) entries
          = (λ e, area_rate plans' (zip_key e)) <$> filter (λ e, zipcode e = z) entries)
    as ->; [|done].
  apply list_fmap_ext. intros i e [? ?]%list_elem_of_lookup_2%list_elem_of_filter.
  by apply Hrate.
Qed.

Lemma run_outcome_ext (entries : list ZipEntry) (targets : list Z) (plans plans' : list Plan) :
  (∀ e x, e ∈ entries →
          x ∈ silver_rates plans (zip_key e) ↔ x ∈ silver_rates plans' (zip_key e)) →
  run_outcome entries targets plans = run_outcome entries targets plans'.
Proof.
  intros Hsame.
  assert (∀ e, e ∈ entries →
               area_rate plans (zip_key e) = area_rate plans' (zip_key e)) as Hrate.
  { intros e He. apply second_lowest_ext. intros x. by apply Hsame. }
  unfold run_outcome.
  rewrite (series_apply_ext (resolve entries plans) (resolve entries plans'))
    by (intros; by apply resolve_ext).
  rewrite (decide_ext (Forall (λ e, area_rate plans (zip_key e) = NaN) entries)
             (Forall (λ e, area_rate plans' (zip_key e) = NaN) entries))
    by (rewrite !Forall_forall; split; intros Hall e He;
        [rewrite <-Hrate|rewrite Hrate]; auto).
  done.
Qed.

(** X10.  On freshly loaded objects with the same mapping and targets, two plan
    catalogues that offer the same set of Silver rates in every rate area
    of the mapping make [calculate_slcsp] end the same way and leave the
    same target frame: the order of the plans, repeated rates, plans of
    other metal levels and plans of areas outside the mapping do not
    matter. *)
Theorem calculate_slcsp_same_silver_rates entries targets plans plans' :
  (∀ e x, e ∈ entries →
          x ∈ silver_rates plans (zip_key e) ↔ x ∈ silver_rates plans' (zip_key e)) →
  (calculate_slcsp (fresh entries targets plans)).1
  = (calculate_slcsp (fresh entries targets plans')).1
  ∧ slcsp_data (calculate_slcsp (fresh entries targets plans)).2
    = slcsp_data (calculate_slcsp (fresh entries targets plans')).2.
Proof.
  intros Hsame.
  destruct (some_silver_area_cases entries plans) as [Hnone|Hsome].
  - assert (∀ e, e ∈ entries → silver_rates plans' (zip_key e) = []) as Hnone'.
    { intros e He.
      destruct (silver_rates plans' (zip_key e)) as [|x l] eqn:Hl; [done|].
      assert (x ∈ silver_rates plans (zip_key e)) as Hx
        by (apply Hsame; [done|]; rewrite Hl; left).
      rewrite (Hnone e He) in Hx. by apply elem_of_nil in Hx. }
    destruct (calculate_slcsp_no_group _ targets _ Hnone) as [-> ->].
    by destruct (calculate_slcsp_no_group _ targets _ Hnone') as [-> ->].
  - assert (some_silver_area entries plans') as Hsome'.
    { destruct Hsome as (e & He & Hne). exists e. split; [done|].
      destruct (silver_rates plans (zip_key e)) as [|x l] eqn:Hl; [done|].
      intros Hnil.
      assert (x ∈ silver_rates plans' (zip_key e)) as Hx
        by (apply Hsame; [done|]; rewrite Hl; left).
      rewrite Hnil in Hx. by apply elem_of_nil in Hx. }
    pose proof (run_outcome_ext entries targets plans plans' Hsame) as Hout.
    rewrite <-!calculate_slcsp_run_outcome in Hout by done. by injection Hout.
Qed.

Lemma calculate_slcsp_same_silver_rates_witness :
  let entries := [entry 1 "AA" 1; entry 2 "AA" 2; entry 3 "AA" 1; entry 3 "AA" 2] in
  let plans := [silver "AA" 1 (Qc_of_Z 100); silver "AA" 1 (Qc_of_Z 150);
                silver "AA" 1 (Qc_of_Z 150); silver "AA" 2 (Qc_of_Z 90)] in
  let plans' := [silver "BB" 7 (Qc_of_Z 10); silver "AA" 2 (Qc_of_Z 90);
                 {| plan_state := "AA"; plan_rate_area := 1;
                    metal_level := "Gold"; rate := Qc_of_Z 120 |};
                 silver "AA" 1 (Qc_of_Z 150); silver "AA" 1 (Qc_of_Z 100)] in
  (∀ e x, e ∈ entries →
          x ∈ silver_rates plans (zip_key e) ↔ x ∈ silver_rates plans' (zip_key e))
  ∧ (calculate_slcsp (fresh entries [1; 2; 3] plans)).1
    = (calculate_slcsp (fresh entries [1; 2; 3] plans')).1
  ∧ slcsp_data (calculate_slcsp (fresh entries [1; 2; 3] plans)).2
    = slcsp_data (calculate_slcsp (fresh entries [1; 2; 3] plans')).2.
Proof.
  intros entries plans plans'.
  assert (∀ e x, e ∈ entries →
                 x ∈ silver_rates plans (zip_key e)
                 ↔ x ∈ silver_rates plans' (zip_key e)) as Hsame.
  { assert (silver_rates plans ("AA", 1) = [Qc_of_Z 100; Qc_of_Z 150; Qc_of_Z 150])
      as H1 by (vm_compute; reflexivity).
    assert (silver_rates plans' ("AA", 1) = [Qc_of_Z 150; Qc_of_Z 100])
      as H1' by (vm_compute; reflexivity).
    assert (silver_rates plans ("AA", 2) = [Qc_of_Z 90])
      as H2 by (vm_compute; reflexivity).
    assert (silver_rates plans' ("AA", 2) = [Qc_of_Z 90])
      as H2' by (vm_compute; reflexivity).
    intros e x He. unfold entries in He.
    rewrite !elem_of_cons, elem_of_nil in He.
    destruct He as [->|[->|[->|[->|[]]]]];
      change (zip_key (entry _ "AA" 1)) with ("AA", 1) ||
      change (zip_key (entry _ "AA" 2)) with ("AA", 2);
      rewrite ?H1, ?H1', ?H2, ?H2', ?elem_of_cons, ?elem_of_nil; tauto. }
  split; [exact Hsame|].
  exact (calculate_slcsp_same_silver_rates entries [1; 2; 3] plans plans' Hsame).
Defined.

(** X11.  After a completed run on a freshly loaded object, a target ZIP code
    all of whose mapping rows lie in one (state, rate_area) gets the second
    lowest Silver rate of that area, printed with two decimals: the rate
    [r] of a Silver plan of the area such that some Silver rate of the area
    is lower and every other one is [r] or higher. *)
Theorem unambiguous_zip_gets_slcsp entries targets plans self'
    (i : nat) (z : Z) (k : RateAreaKey) (r m : Qc) :
  calculate_slcsp (fresh entries targets plans) = (Ok (), self') →
  targets !! i = Some z →
  (∀ e, e ∈ entries → zipcode e = z → zip_key e = k) →
  r ∈ silver_rates plans k → m ∈ silver_rates plans k → Qclt m r →
  (∀ x, x ∈ silver_rates plans k → x = m ∨ Qcle r x) →
  slcsp_data self' !! i
  = Some {| target_zipcode := z; target_rate := Some (format_2f (Some r)) |}
  ∧ two_decimals (format_2f (Some r)) = true.
Proof.
  intros Hrun Hz Hkey Hr Hm Hlt Hrest. split; [|apply format_2f_two_decimals].
  destruct (calculate_slcsp_fresh_row _ _ _ _ _ _ Hrun Hz) as (r0 & Hres & ->).
  assert (area_rate plans k = Some r) as Hrate.
  { apply second_lowest_Some. split; [done|]. by exists m. }
  destruct (filter (λ e, zipcode e = z) entries) as [|e0 rows] eqn:Hrows.
  - assert (resolve entries plans z = Raise IndexError) as Hraise; [|congruence].
    apply resolve_Raise. split; [done|]. intros e' He' Hz'.
    assert (e' ∈ filter (λ e, zipcode e = z) entries) as Hin
      by (by apply list_elem_of_filter).
    rewrite Hrows in Hin. by apply elem_of_nil in Hin.
  - assert (e0 ∈ filter (λ e, zipcode e = z) entries)
      as [Hz0 He0]%list_elem_of_filter by (rewrite Hrows; left).
    rewrite (resolve_one_area _ _ _ e0 k r He0 Hz0 Hkey Hrate) in Hres.
    by injection Hres as <-.
Qed.

Lemma unambiguous_zip_gets_slcsp_witness :
  let entries := [entry 1 "AA" 1; entry 2 "AA" 2; entry 3 "AA" 1; entry 3 "AA" 2] in
  let plans := [silver "AA" 1 (Qc_of_Z 100); silver "AA" 1 (Qc_of_Z 150);
                silver "AA" 1 (Qc_of_Z 150); silver "AA" 2 (Qc_of_Z 90)] in
  let self' := (calculate_slcsp (fresh entries [1; 2; 3] plans)).2 in
  let k : RateAreaKey := ("AA", 1) in
  (calculate_slcsp (fresh entries [1; 2; 3] plans) = (Ok (), self')
   ∧ [1; 2; 3] !! 0%nat = Some 1
   ∧ (∀ e, e ∈ entries → zipcode e = 1 → zip_key e = k)
   ∧ Qc_of_Z 150 ∈ silver_rates plans k ∧ Qc_of_Z 100 ∈ silver_rates plans k
   ∧ Qclt (Qc_of_Z 100) (Qc_of_Z 150)
   ∧ (∀ x, x ∈ silver_rates plans k → x = Qc_of_Z 100 ∨ Qcle (Qc_of_Z 150) x))
  ∧ slcsp_data self' !! 0%nat
    = Some {| target_zipcode := 1;
              target_rate := Some (format_2f (Some (Qc_of_Z 150))) |}
  ∧ two_decimals (format_2f (Some (Qc_of_Z 150))) = true.
Proof.
  intros entries plans self' k.
  assert (calculate_slcsp (fresh entries [1; 2; 3] plans) = (Ok (), self')) as Hrun
    by (vm_compute; reflexivity).
  assert ([1; 2; 3] !! 0%nat = Some 1) as Hz by reflexivity.
  assert (∀ e, e ∈ entries → zipcode e = 1 → zip_key e = k) as Hkey.
  { intros e He Hze. unfold entries in He.
    rewrite !elem_of_cons, elem_of_nil in He.
    destruct He as [->|[->|[->|[->|[]]]]];
      first [reflexivity | discriminate Hze]. }
  assert (silver_rates plans k = [Qc_of_Z 100; Qc_of_Z 150; Qc_of_Z 150])
    as Hrates by (vm_compute; reflexivity).
  assert (Qc_of_Z 150 ∈ silver_rates plans k) as Hr
    by (rewrite Hrates; right; left).
  assert (Qc_of_Z 100 ∈ silver_rates plans k) as Hm
    by (rewrite Hrates; left).
  assert (Qclt (Qc_of_Z 100) (Qc_of_Z 150)) as Hlt by (vm_compute; reflexivity).
  assert (∀ x, x ∈ silver_rates plans k → x = Qc_of_Z 100 ∨ Qcle (Qc_of_Z 150) x)
    as Hrest.
  { intros x Hx. rewrite Hrates, !elem_of_cons, elem_of_nil in Hx.
    destruct Hx as [->|[->|[->|[]]]];
      [left; reflexivity|right; vm_compute; discriminate..]. }
  split; [exact (conj Hrun (conj Hz (conj Hkey (conj Hr (conj Hm (conj Hlt Hrest))))))|].
  exact (unambiguous_zip_gets_slcsp entries [1; 2; 3] plans self' 0 1 k
           (Qc_of_Z 150) (Qc_of_Z 100) Hrun Hz Hkey Hr Hm Hlt Hrest).
Defined.

(** X12.  After a completed run on a freshly loaded object, the rate of a target
    ZIP code is blank exactly when its mapping rows show two rate area
    numbers or one of them lies in an area without two distinct Silver
    rates; a rate that is not blank is the second lowest rate of the area
    of a mapping row of the ZIP code, with two decimals. *)
Theorem target_rate_blank_iff entries targets plans self' (i : nat) (z : Z) :
  calculate_slcsp (fresh entries targets plans) = (Ok (), self') →
  targets !! i = Some z →
  ∃ s,
    slcsp_data self' !! i = Some {| target_zipcode := z; target_rate := Some s |}
    ∧ (s = "" ↔
       (∃ e1 e2, e1 ∈ entries ∧ e2 ∈ entries ∧ zipcode e1 = z ∧ zipcode e2 = z
                 ∧ rate_area e1 ≠ rate_area e2)
       ∨ (∃ e, e ∈ entries ∧ zipcode e = z
               ∧ ∀ x y, x ∈ silver_rates plans (zip_key e) →
                        y ∈ silver_rates plans (zip_key e) → x = y))
    ∧ (s ≠ "" →
       two_decimals s = true
       ∧ ∃ e, e ∈ entries ∧ zipcode e = z
              ∧ s = format_2f (area_rate plans (zip_key e))).
Proof.
  intros Hrun Hz.
  destruct (calculate_slcsp_fresh_row _ _ _ _ _ _ Hrun Hz) as (r & Hres & Hrow).
  exists (format_rate r). split; [done|].
  assert ((∃ e1 e2, e1 ∈ entries ∧ e2 ∈ entries ∧ zipcode e1 = z ∧ zipcode e2 = z
                    ∧ rate_area e1 ≠ rate_area e2)
          ∨ (∃ e, e ∈ entries ∧ zipcode e = z
                  ∧ ∀ x y, x ∈ silver_rates plans (zip_key e) →
                           y ∈ silver_rates plans (zip_key e) → x = y)
          ↔ resolve entries plans z = Ok Blank) as ->.
  { rewrite resolve_Blank.
    split; (intros [Htwo|(e & He & Hze & Hnone)]; [by left|right]);
      exists e; (split; [done|]); (split; [done|]); by apply second_lowest_None. }
  rewrite Hres. destruct r as [|v]; simpl.
  - split; [done|]. intros Hne. by destruct Hne.
  - apply resolve_Rate in Hres as (q & e & -> & He & Hze & Hq). split.
    + split; [by intros ?%format_2f_not_blank|done].
    + intros _. split; [apply format_2f_two_decimals|].
      exists e. by rewrite Hq.
Qed.

Lemma target_rate_blank_iff_witness :
  let entries := [entry 1 "AA" 1; entry 2 "AA" 2; entry 3 "AA" 1; entry 3 "AA" 2] in
  let plans := [silver "AA" 1 (Qc_of_Z 100); silver "AA" 1 (Qc_of_Z 150);
                silver "AA" 1 (Qc_of_Z 150); silver "AA" 2 (Qc_of_Z 90)] in
  let self' := (calculate_slcsp (fresh entries [1; 2; 3] plans)).2 in
  let z := 3 in
  (calculate_slcsp (fresh entries [1; 2; 3] plans) = (Ok (), self')
   ∧ [1; 2; 3] !! 2%nat = Some z)
  ∧ ∃ s,
      slcsp_data self' !! 2%nat = Some {| target_zipcode := z; target_rate := Some s |}
      ∧ (s = "" ↔
         (∃ e1 e2, e1 ∈ entries ∧ e2 ∈ entries ∧ zipcode e1 = z ∧ zipcode e2 = z
                   ∧ rate_area e1 ≠ rate_area e2)
         ∨ (∃ e, e ∈ entries ∧ zipcode e = z
                 ∧ ∀ x y, x ∈ silver_rates plans (zip_key e) →
                          y ∈ silver_rates plans (zip_key e) → x = y))
      ∧ (s ≠ "" →
         two_decimals s = true
         ∧ ∃ e, e ∈ entries ∧ zipcode e = z
                ∧ s = format_2f (area_rate plans (zip_key e))).
Proof.
  intros entries plans self' z.
  assert (calculate_slcsp (fresh entries [1; 2; 3] plans) = (Ok (), self')) as Hrun
    by (vm_compute; reflexivity).
  assert ([1; 2; 3] !! 2%nat = Some z) as Hz by reflexivity.
  split; [exact (conj Hrun Hz)|].
  exact (target_rate_blank_iff entries [1; 2; 3] plans self' 2 z Hrun Hz).
Defined.

Lemma second_lowest_rates_frame_witness :
  let self := ((filter_silver_plans >>> merge_data) scenario_object).2 in
  let df := default [] (merged_data self) in
  let self' := (calculate_second_lowest_rates self).2 in
  let rows := [(("AA", 1), Some (Qc_of_Z 150)); (("AA", 2), None)] in
  (merged_data self = Some df
   ∧ calculate_second_lowest_rates self = (Ok (), self')
   ∧ second_lowest_rates self' = Some (RatesByArea rows))
  ∧ NoDup rows.*1
  ∧ (∀ k, k ∈ rows.*1 ↔ ∃ r, r ∈ df ∧ merged_key r = k)
  ∧ (∀ k v, (k, v) ∈ rows → v = second_lowest (group_rates df k)).
Proof.
  intros self df self' rows.
  assert (merged_data self = Some df) as Hdf by (vm_compute; reflexivity).
  assert (calculate_second_lowest_rates self = (Ok (), self')) as Hrun
    by (vm_compute; reflexivity).
  assert (second_lowest_rates self' = Some (RatesByArea rows)) as Hrows
    by (vm_compute; reflexivity).
  split; [exact (conj Hdf (conj Hrun Hrows))|].
  exact (second_lowest_rates_frame self self' df rows Hdf Hrun Hrows).
Defined.

(** ** [get_rate] and [determine_rate] on any object *)

Lemma get_rate_Rate (self : SLCSPCalculator) (z : Z) (v : float64) :
  get_rate self z = Ok (Rate v) → ∃ q, v = Some q.
Proof.
  unfold get_rate. case_decide; [done|].
  destruct (getitem _ _ _) as [rates|]; simpl; [|done].
  destruct rates as [|[q|] rates]; simpl; [done| |done].
  destruct (existsb isna rates); [done|]. intros [= <-]. by exists q.
Qed.

Lemma get_rate_Raise (self : SLCSPCalculator) (z : Z) (e : exn) :
  "second_lowest_rate" ∈ zf_columns (zipcode_data self) →
  get_rate self z = Raise e →
  e = IndexError ∧ ∀ r, r ∈ zf_rows (zipcode_data self) → zipcode r.1 ≠ z.
Proof.
  intros (i & Hi)%index_of_elem_of. unfold get_rate, getitem. rewrite Hi.
  case_decide; [done|]. simpl. destruct (existsb isna _); [done|].
  destruct (filter (λ r : ZipRow, zipcode r.1 = z) (zf_rows (zipcode_data self)))
    as [|r0 rows] eqn:Hrows; simpl; [|done].
  intros [= <-]. split; [done|]. intros r Hr Hz.
  assert (r ∈ filter (λ r : ZipRow, zipcode r.1 = z) (zf_rows (zipcode_data self)))
    as Hin by (by apply list_elem_of_filter).
  rewrite Hrows in Hin. by apply elem_of_nil in Hin.
Qed.

Lemma get_rate_no_row (self : SLCSPCalculator) (z : Z) :
  "second_lowest_rate" ∈ zf_columns (zipcode_data self) →
  (∀ r, r ∈ zf_rows (zipcode_data self) → zipcode r.1 ≠ z) →
  get_rate self z = Raise IndexError.
Proof.
  intros (i & Hi)%index_of_elem_of Hnone. unfold get_rate, getitem. rewrite Hi.
  rewrite (filter_none (λ r : ZipRow, zipcode r.1 = z))
    by (intros r Hr; by apply Hnone).
  done.
Qed.

Lemma determine_rate_rates (self self' : SLCSPCalculator) (t : TargetZip) :
  determine_rate self = (Ok (), self') → t ∈ slcsp_data self' →
  ∃ t0 r z, t = rated t0 r ∧ get_rate self z = Ok r.
Proof.
  intros Hdet Ht.
  destruct (determine_rate_cases self)
    as [(e & _ & Hr)|(rates & s' & Happ & _ & Hr & Hsd & _)]; [congruence|].
  rewrite Hdet in Hr. injection Hr as <-. rewrite Hsd in Ht.
  apply elem_of_zip_with in Ht as (t0 & r & -> & _ & Hr).
  destruct (series_apply_elem_of _ _ _ _ Happ Hr) as (z & _ & Hz).
  by exists t0, r, z.
Qed.

(** X7.  After a completed [calculate_slcsp], on any object, every row of the
    target frame has a rate, and that rate is the empty string or a numeral
    with exactly two decimals; it is never the text of a missing value. *)
Theorem rates_are_blank_or_two_decimals (self self' : SLCSPCalculator) :
  calculate_slcsp self = (Ok (), self') →
  ∀ t, t ∈ slcsp_data self' →
       ∃ s, target_rate t = Some s ∧ (s = "" ∨ two_decimals s = true).
Proof.
  rewrite calculate_slcsp_split.
  destruct (resolve_stages self) as [[[]|e] s4]; [|done].
  intros Hdet t Ht.
  destruct (determine_rate_rates _ _ _ Hdet Ht) as (t0 & r & z & -> & Hz).
  simpl. eexists. split; [done|]. destruct r as [|v]; [by left|right].
  apply get_rate_Rate in Hz as [q ->]. apply format_2f_two_decimals.
Qed.

Lemma rates_are_blank_or_two_decimals_witness :
  let self' := (calculate_slcsp scenario_object).2 in
  calculate_slcsp scenario_object = (Ok (), self')
  ∧ ∀ t, t ∈ slcsp_data self' →
         ∃ s, target_rate t = Some s ∧ (s = "" ∨ two_decimals s = true).
Proof.
  intros self'.
  assert (calculate_slcsp scenario_object = (Ok (), self')) as Hrun
    by (vm_compute; reflexivity).
  split; [exact Hrun|].
  exact (rates_are_blank_or_two_decimals scenario_object self' Hrun).
Defined.

(** X6.  Once the mapping has its [second_lowest_rate] column, [determine_rate]
    completes exactly when every target ZIP code has a mapping row.
    Otherwise it raises [IndexError] and leaves the object as it was: one
    target without a mapping row keeps every target from getting a rate. *)
Theorem determine_rate_all_or_nothing (self : SLCSPCalculator) :
  "second_lowest_rate" ∈ zf_columns (zipcode_data self) →
  ((∃ self', determine_rate self = (Ok (), self'))
   ↔ ∀ t, t ∈ slcsp_data self →
          ∃ r, r ∈ zf_rows (zipcode_data self) ∧ zipcode r.1 = target_zipcode t)
  ∧ (∀ e s, determine_rate self = (Raise e, s) → e = IndexError ∧ s = self).
Proof.
  intros Hcol. split; [split|].
  - intros [self' Hdet] t Ht.
    destruct (determine_rate_cases self)
      as [(e & _ & Hr)|(rates & s' & Happ & _)]; [congruence|].
    assert (target_zipcode t ∈ target_zipcodes self) as (i & Hi)%list_elem_of_lookup_1.
    { apply list_elem_of_fmap. by exists t. }
    destruct (series_apply_lookup _ _ _ _ _ Happ Hi) as (y & _ & Hy).
    destruct (filter (λ r : ZipRow, zipcode r.1 = target_zipcode t)
                (zf_rows (zipcode_data self))) as [|r0 rows] eqn:Hrows.
    + rewrite get_rate_no_row in Hy; [done..|].
      intros r Hr Hz.
      assert (r ∈ filter (λ r : ZipRow, zipcode r.1 = target_zipcode t)
                    (zf_rows (zipcode_data self))) as Hin
        by (by apply list_elem_of_filter).
      rewrite Hrows in Hin. by apply elem_of_nil in Hin.
    + assert (r0 ∈ filter (λ r : ZipRow, zipcode r.1 = target_zipcode t)
                     (zf_rows (zipcode_data self)))
        as [? ?]%list_elem_of_filter by (rewrite Hrows; left).
      by exists r0.
  - by apply determine_rate_completes.
  - intros e s Hdet.
    destruct (determine_rate_cases self)
      as [(e0 & Happ & Hr)|(rates & s' & _ & _ & Hr & _)]; [|congruence].
    rewrite Hdet in Hr. injection Hr as -> ->. split; [|done].
    apply series_apply_Raise in Happ as (x & _ & Hx).
    by apply get_rate_Raise in Hx as [-> _].
Qed.

Lemma determine_rate_all_or_nothing_witness :
  let self := (resolve_stages scenario_object).2 in
  "second_lowest_rate" ∈ zf_columns (zipcode_data self)
  ∧ ((∃ self', determine_rate self = (Ok (), self'))
     ↔ ∀ t, t ∈ slcsp_data self →
            ∃ r, r ∈ zf_rows (zipcode_data self) ∧ zipcode r.1 = target_zipcode t)
  ∧ (∀ e s, determine_rate self = (Raise e, s) → e = IndexError ∧ s = self).
Proof.
  intros self.
  assert (zf_columns (zipcode_data self) = ["second_lowest_rate"]) as Hcols
    by (vm_compute; reflexivity).
  assert ("second_lowest_rate" ∈ zf_columns (zipcode_data self)) as Hcol
    by (rewrite Hcols; left).
  split; [exact Hcol|].
  exact (determine_rate_all_or_nothing self Hcol).
Defined.

(** ** A second run on the same object *)

Lemma merge_inner_cells (left : list ZipRow) (g : ZipRow → list float64)
    (right : list Plan) :
  merge_inner ((λ r, (r.1, g r)) <$> left) right
  = (λ m : MergedRow, ((m.1.1, g m.1), m.2)) <$> merge_inner left right.
Proof.
  unfold merge_inner. induction left as [|r left IH]; [done|].
  rewrite fmap_cons, !bind_cons, fmap_app, IH. f_equal.
  by rewrite <-list_fmap_compose.
Qed.

(** The aggregation does not look at the mapping cells of the joined
    rows. *)
Lemma groupby_apply_cells (df : list MergedRow) (h : MergedRow → MergedRow) :
  (∀ m, (h m).2 = m.2) → groupby_apply (h <$> df) = groupby_apply df.
Proof.
  intros Hh. rewrite !groupby_apply_second_lowest.
  assert (merged_key <$> (h <$> df) = merged_key <$> df) as ->.
  { rewrite <-list_fmap_compose. apply list_fmap_ext. intros i m _.
    unfold merged_key. simpl. by rewrite Hh. }
  assert (∀ k, group_rates (h <$> df) k = group_rates df k) as Hrates.
  { intros k. unfold group_rates, rate_column.
    rewrite (filter_fmap (λ r, merged_key r = k)), <-list_fmap_compose.
    assert (filter (λ m, merged_key (h m) = k) df
            = filter (λ m, merged_key m = k) df) as ->.
    { apply list_filter_iff. intros m. unfold merged_key. by rewrite Hh. }
    apply list_fmap_ext. intros i m _. simpl. by rewrite Hh. }
  assert ((λ k, second_lowest (group_rates (h <$> df) k))
            <$> drop_duplicates (merged_key <$> df)
          = (λ k, second_lowest (group_rates df k))
              <$> drop_duplicates (merged_key <$> df)) as ->; [|done].
  apply list_fmap_ext. intros i k _. by rewrite Hrates.
Qed.

(** The first four stages on any object whose aggregation and left join
    succeed. *)
Lemma resolve_stages_run (self : SLCSPCalculator) rows (zf : ZipFrame) :
  groupby_apply
    (merge_inner (zf_rows (zipcode_data self))
       (filter (λ p, metal_level p = "Silver") (plans_data self)))
  = Ok (RatesByArea rows) →
  merge_left (zipcode_data self) (RatesByArea rows) = Ok zf →
  ∃ self',
    resolve_stages self = (Ok (), self')
    ∧ zipcode_data self' = zf ∧ slcsp_data self' = slcsp_data self.
Proof.
  intros Hagg Hmerge.
  unfold resolve_stages, filter_silver_plans, merge_data,
    calculate_second_lowest_rates, merge_zip_and_rate, bind, getattr, lift,
    set_silver_plans, set_merged_data, set_second_lowest_rates, set_zipcode_data.
  simpl. rewrite Hagg. cbn -[merge_left]. rewrite Hmerge. simpl. by eexists.
Qed.

Lemma determine_rate_zipcode_data (self : SLCSPCalculator) :
  zipcode_data (determine_rate self).2 = zipcode_data self.
Proof.
  unfold determine_rate, bind, lift.
  by destruct (series_apply _ _).
Qed.

(** Without the column, [get_rate] gives the blank for a ZIP code with two
    rate area numbers and raises [KeyError] for any other. *)
Lemma get_rate_without_column (self : SLCSPCalculator) (z : Z) :
  "second_lowest_rate" ∉ zf_columns (zipcode_data self) →
  get_rate self z
  = if decide (1 < nunique ((λ r : ZipRow, rate_area r.1)
                              <$> filter (λ r : ZipRow, zipcode r.1 = z)
                                    (zf_rows (zipcode_data self))))%nat
    then Ok Blank else Raise (KeyError "second_lowest_rate").
Proof.
  intros Hcol. unfold get_rate, getitem.
  destruct (index_of "second_lowest_rate" (zf_columns (zipcode_data self)))
    as [i|] eqn:Hi; [|done].
  destruct Hcol. clear -Hi. revert i Hi.
  induction (zf_columns (zipcode_data self)) as [|c cs IH]; intros i; [done|].
  simpl. case_decide as Hc; [intros _; subst c; left|].
  destruct (index_of "second_lowest_rate" cs) as [j|]; [|done].
  intros _. right. by eapply IH.
Qed.

Lemma left_join_entry (left : list ZipRow) rows (r : ZipRow) :
  r ∈ left_join left rows → ∃ l, l ∈ left ∧ r.1 = l.1.
Proof.
  unfold left_join. intros (l & Hr & Hl)%list_elem_of_bind.
  apply list_elem_of_fmap in Hr as (v & -> & _). by exists l.
Qed.

(** X13.  A second [calculate_slcsp] on an object whose first one completed does
    not recompute the rates: the second left join renames the
    [second_lowest_rate] column, so that, as soon as one target ZIP code
    has a single rate area number, the run ends with [KeyError] and the
    target frame stays as the first run left it. *)
Theorem second_run_raises_KeyError entries targets plans self' (z : Z) :
  calculate_slcsp (fresh entries targets plans) = (Ok (), self') →
  z ∈ targets →
  (∀ e1 e2, e1 ∈ entries → e2 ∈ entries → zipcode e1 = z → zipcode e2 = z →
            rate_area e1 = rate_area e2) →
  (calculate_slcsp self').1 = Raise (KeyError "second_lowest_rate")
  ∧ slcsp_data (calculate_slcsp self').2 = slcsp_data self'.
Proof.
  intros Hrun Hz Hone.
  pose proof Hrun as Hfirst. rewrite calculate_slcsp_split in Hfirst.
  destruct (resolve_stages (fresh entries targets plans)) as [[[]|e] s4] eqn:Hstages;
    [|done].
  pose proof (resolve_stages_zipcode_data _ _ _ _ Hstages) as Hzd.
  destruct (resolve_stages_fresh _ _ _ _ Hstages) as (rows & Hagg & _).
  destruct (resolve_stages_inputs _ _ _ Hstages) as [Hplans Hslcsp]. simpl in *.
  pose proof (determine_rate_zipcode_data s4) as Hzd'.
  rewrite Hfirst in Hzd'. simpl in Hzd'. rewrite Hzd in Hzd'.
  destruct (determine_rate_cases s4)
    as [(e & _ & Hr)|(rates & s' & _ & Hlen & Hr & Hsd & Hpd)]; [congruence|].
  rewrite Hfirst in Hr. injection Hr as <-.
  assert (target_zipcodes self' = targets) as Htargets.
  { unfold target_zipcodes.
    by rewrite Hsd, zipcodes_zip_with_rated, Hslcsp, target_zipcode_unrated. }
  destruct (resolve_stages_run self' rows
              {| zf_columns := ["second_lowest_rate_x"; "second_lowest_rate_y"];
                 zf_rows := left_join (zf_rows (rated_mapping entries plans)) rows |})
    as (s4' & Hstages' & Hzd2 & Hslcsp2).
  { rewrite Hzd', Hpd, Hplans. unfold rated_mapping. simpl.
    rewrite <-Hagg.
    rewrite (list_fmap_compose (λ e, (e, []))
               (λ r : ZipRow, (r.1, [area_rate plans (zip_key r.1)]))).
    rewrite merge_inner_cells. by apply groupby_apply_cells. }
  { rewrite Hzd'. reflexivity. }
  rewrite calculate_slcsp_split, Hstages'.
  assert ("second_lowest_rate" ∉ zf_columns (zipcode_data s4')) as Hcol.
  { rewrite Hzd2. simpl. rewrite !elem_of_cons, elem_of_nil. by intros [|[|]]. }
  assert (target_zipcodes s4' = targets) as Htargets'.
  { unfold target_zipcodes in *. by rewrite Hslcsp2. }
  assert (get_rate s4' z = Raise (KeyError "second_lowest_rate")) as Hget.
  { rewrite get_rate_without_column by done.
    rewrite decide_False; [done|]. apply Nat.le_ngt, nunique_le_1.
    rewrite Hzd2. simpl.
    intros a b (r1 & -> & [Hz1 Hr1]%list_elem_of_filter)%list_elem_of_fmap
               (r2 & -> & [Hz2 Hr2]%list_elem_of_filter)%list_elem_of_fmap.
    apply left_join_entry in Hr1 as (l1 & Hl1 & Heq1).
    apply left_join_entry in Hr2 as (l2 & Hl2 & Heq2).
    apply list_elem_of_fmap in Hl1 as (e1 & -> & He1).
    apply list_elem_of_fmap in Hl2 as (e2 & -> & He2).
    simpl in *. rewrite Heq1, Heq2 in *. by apply Hone. }
  destruct (determine_rate_cases s4')
    as [(e & Happ & Hr)|(rates' & s'' & Happ & _)].
  - rewrite Hr. simpl. split; [|done]. f_equal.
    apply series_apply_Raise in Happ as (x & _ & Hx).
    rewrite get_rate_without_column in Hx by done.
    case_decide; [done|]. by injection Hx.
  - rewrite Htargets' in Happ.
    apply list_elem_of_lookup_1 in Hz as (i & Hi).
    destruct (series_apply_lookup _ _ _ _ _ Happ Hi) as (y & _ & Hy). congruence.
Qed.

Lemma second_run_raises_KeyError_witness :
  let entries := [entry 1 "AA" 1; entry 2 "AA" 2; entry 3 "AA" 1; entry 3 "AA" 2] in
  let plans := [silver "AA" 1 (Qc_of_Z 100); silver "AA" 1 (Qc_of_Z 150);
                silver "AA" 1 (Qc_of_Z 150); silver "AA" 2 (Qc_of_Z 90)] in
  let self' := (calculate_slcsp (fresh entries [1; 2; 3] plans)).2 in
  (calculate_slcsp (fresh entries [1; 2; 3] plans) = (Ok (), self')
   ∧ 1 ∈ [1; 2; 3]
   ∧ (∀ e1 e2, e1 ∈ entries → e2 ∈ entries → zipcode e1 = 1 → zipcode e2 = 1 →
               rate_area e1 = rate_area e2))
  ∧ (calculate_slcsp self').1 = Raise (KeyError "second_lowest_rate")
  ∧ slcsp_data (calculate_slcsp self').2 = slcsp_data self'.
Proof.
  intros entries plans self'.
  assert (calculate_slcsp (fresh entries [1; 2; 3] plans) = (Ok (), self')) as Hrun
    by (vm_compute; reflexivity).
  assert (1 ∈ [1; 2; 3]) as Hz by left.
  assert (∀ e1 e2, e1 ∈ entries → e2 ∈ entries → zipcode e1 = 1 → zipcode e2 = 1 →
                   rate_area e1 = rate_area e2) as Hone.
  { intros e1 e2 He1 He2 Hz1 Hz2. unfold entries in He1, He2.
    rewrite !elem_of_cons, elem_of_nil in He1, He2.
    destruct He1 as [->|[->|[->|[->|[]]]]]; try discriminate Hz1;
      destruct He2 as [->|[->|[->|[->|[]]]]]; try discriminate Hz2; reflexivity. }
  split; [exact (conj Hrun (conj Hz Hone))|].
  exact (second_run_raises_KeyError entries [1; 2; 3] plans self' 1 Hrun Hz Hone).
Defined.

(** ** What a completed run prints *)

Lemma zip_with_output_line_unrated (targets : list Z) (rates : list resolved) :
  zip_with output_line (unrated targets) rates
  = zip_with (λ z r, str_of_int z +:+ "," +:+ format_rate r) targets rates.
Proof.
  revert rates. induction targets as [|z targets IH]; intros [|r rates]; [done..|].
  simpl. f_equal. apply IH.
Qed.

(** X14.  After a completed run on a freshly loaded object, [print_slcsp] writes
    the header line, then for every target, in the order of the target
    file, the ZIP code as a plain integer, a comma and the text of its
    resolution; the text ends with the line end of the last row and the
    one that [print] adds. *)
Theorem printed_lines_of_run entries targets plans self' :
  calculate_slcsp (fresh entries targets plans) = (Ok (), self') →
  ∃ rates,
    series_apply (resolve entries plans) targets = Ok rates
    ∧ length rates = length targets
    ∧ split_lines (print_slcsp self')
      = "zipcode,rate"
        :: zip_with (λ z r, str_of_int z +:+ "," +:+ format_rate r) targets rates
        ++ [""; ""].
Proof.
  intros (rates & Happ & Hsd)%calculate_slcsp_fresh_rates.
  exists rates. split; [done|]. split; [by eapply series_apply_length|].
  unfold print_slcsp. rewrite Hsd, split_lines_print.
  by rewrite zip_with_output_line_unrated.
Qed.

Lemma printed_lines_of_run_witness :
  let entries := [entry 1 "AA" 1; entry 2 "AA" 2; entry 3 "AA" 1; entry 3 "AA" 2] in
  let plans := [silver "AA" 1 (Qc_of_Z 100); silver "AA" 1 (Qc_of_Z 150);
                silver "AA" 1 (Qc_of_Z 150); silver "AA" 2 (Qc_of_Z 90)] in
  let self' := (calculate_slcsp (fresh entries [1; 2; 3] plans)).2 in
  calculate_slcsp (fresh entries [1; 2; 3] plans) = (Ok (), self')
  ∧ ∃ rates,
      series_apply (resolve entries plans) [1; 2; 3] = Ok rates
      ∧ length rates = length [1; 2; 3]
      ∧ split_lines (print_slcsp self')
        = "zipcode,rate"
          :: zip_with (λ z r, str_of_int z +:+ "," +:+ format_rate r) [1; 2; 3] rates
          ++ [""; ""].
Proof.
  intros entries plans self'.
  assert (calculate_slcsp (fresh entries [1; 2; 3] plans) = (Ok (), self')) as Hrun
    by (vm_compute; reflexivity).
  split; [exact Hrun|].
  exact (printed_lines_of_run entries [1; 2; 3] plans self' Hrun).
Defined.

(** * Runs that end before any rate is written *)

(** The program on files that load into the schema of the pipeline. *)
Lemma main_typed (plans_file zips_file slcsp_file : Table) loaded self :
  __init__ plans_file zips_file slcsp_file = Ok loaded →
  typed loaded = Some self →
  main plans_file zips_file slcsp_file
  = Some (match calculate_slcsp self with
          | (Ok _, self') => Ok (print_slcsp self')
          | (Raise e, _) => Raise e
          end).
Proof.
  intros Hinit Htyped. unfold main. rewrite Hinit.
  assert (∃ s, frame_getitem (plans_frame loaded) "metal_level" = Ok s) as [s ->].
  { unfold typed in Htyped.
    destruct (typed_plans (plans_frame loaded)) as [plans|] eqn:Hp; [|done].
    unfold typed_plans in Hp.
    destruct (column_as _ "state" _); [|done].
    destruct (column_as _ "rate_area" _); [|done].
    destruct (column_as _ "metal_level" as_text) eqn:Hl; [|done].
    unfold column_as, lookup_column in Hl.
    destruct (frame_getitem _ "metal_level"); [by eexists|done]. }
  by rewrite Htyped.
Qed.

Lemma main_raises (plans_file zips_file slcsp_file : Table) loaded self (e : exn) :
  __init__ plans_file zips_file slcsp_file = Ok loaded →
  typed loaded = Some self →
  (calculate_slcsp self).1 = Raise e →
  main plans_file zips_file slcsp_file = Some (Raise e).
Proof.
  intros Hinit Htyped Hrun. rewrite (main_typed _ _ _ _ _ Hinit Htyped).
  destruct (calculate_slcsp self) as [[[]|e'] s]; simpl in Hrun; congruence.
Qed.

(** C4.  The docstring of [determine_rate] promises the empty string for a
    ZIP code without a second lowest rate, and the code does not keep it
    when no rate area has one.  Take a freshly loaded object with a mapping
    row in a rate area that has a Silver plan, in which no rate area of the
    mapping offers two distinct Silver rates.  The second lowest rate of
    every group is undefined, as claimed; but then the frame of
    [calculate_second_lowest_rates] has no key columns,
    [merge_zip_and_rate] raises [KeyError], [calculate_slcsp] ends with it
    and no target gets a rate, not even the blank one; the program prints
    no row. *)
Theorem single_rate_areas_raise_KeyError entries targets plans (e0 : ZipEntry) :
  e0 ∈ entries → silver_rates plans (zip_key e0) ≠ [] →
  (∀ e, e ∈ entries → (nunique (silver_rates plans (zip_key e)) ≤ 1)%nat) →
  (∀ e, e ∈ entries →
        get_second_lowest_rate
          (filter (λ r, merged_key r = zip_key e)
             (merge_inner ((λ e, (e, [])) <$> entries)
                (filter (λ p, metal_level p = "Silver") plans)))
        = Ok None)
  ∧ (∃ s3,
       (filter_silver_plans >>> merge_data >>> calculate_second_lowest_rates)
         (fresh entries targets plans) = (Ok (), s3)
       ∧ second_lowest_rates s3 = Some NoColumns
       ∧ (merge_zip_and_rate s3).1 = Raise (KeyError "state"))
  ∧ (calculate_slcsp (fresh entries targets plans)).1 = Raise (KeyError "state")
  ∧ slcsp_data (calculate_slcsp (fresh entries targets plans)).2 = unrated targets
  ∧ (∀ plans_file zips_file slcsp_file loaded,
       __init__ plans_file zips_file slcsp_file = Ok loaded →
       typed loaded = Some (fresh entries targets plans) →
       main plans_file zips_file slcsp_file = Some (Raise (KeyError "state"))).
Proof.
  intros He0 Hne0 Hone.
  assert (∀ e, e ∈ entries → area_rate plans (zip_key e) = NaN) as Hnan.
  { intros e He. apply second_lowest_None, nunique_le_1, Hone, He. }
  pose proof (groupby_apply_fresh_no_rate entries plans e0 He0 Hne0 Hnan) as Hagg.
  assert ((calculate_slcsp (fresh entries targets plans)).1 = Raise (KeyError "state")
          ∧ slcsp_data (calculate_slcsp (fresh entries targets plans)).2
            = unrated targets) as [Hrun Hdata].
  { rewrite calculate_slcsp_split.
    destruct (resolve_stages (fresh entries targets plans)) as [r s] eqn:Hstages.
    pose proof (resolve_stages_fresh_result entries targets plans) as Hres.
    rewrite Hstages, Hagg in Hres. simpl in Hres. subst r.
    destruct (resolve_stages_inputs _ _ _ Hstages) as [_ Hs]. simpl in *.
    by rewrite Hs. }
  split; [|split; [|split; [done|split; [done|]]]].
  - intros e He. apply get_second_lowest_rate_None.
    eapply nunique_le_1_subseteq; [|exact (Hone e He)].
    intros x. apply rate_column_group.
  - unfold filter_silver_plans, merge_data, calculate_second_lowest_rates,
      merge_zip_and_rate, bind, getattr, lift,
      set_silver_plans, set_merged_data, set_second_lowest_rates.
    simpl. rewrite Hagg. simpl. by eexists.
  - intros plans_file zips_file slcsp_file loaded Hinit Htyped.
    by apply (main_raises _ _ _ _ _ _ Hinit Htyped).
Qed.

Lemma single_rate_areas_raise_KeyError_witness :
  let entries := [entry 1 "AA" 1; entry 2 "AA" 2; entry 3 "AA" 1; entry 3 "AA" 2] in
  let plans := [silver "AA" 1 (Qc_of_Z 100); silver "AA" 2 (Qc_of_Z 90)] in
  let targets := [1; 2; 3] in
  let e0 := entry 1 "AA" 1 in
  (e0 ∈ entries ∧ silver_rates plans (zip_key e0) ≠ []
   ∧ (∀ e, e ∈ entries → (nunique (silver_rates plans (zip_key e)) ≤ 1)%nat))
  ∧ (∀ e, e ∈ entries →
          get_second_lowest_rate
            (filter (λ r, merged_key r = zip_key e)
               (merge_inner ((λ e, (e, [])) <$> entries)
                  (filter (λ p, metal_level p = "Silver") plans)))
          = Ok None)
  ∧ (∃ s3,
       (filter_silver_plans >>> merge_data >>> calculate_second_lowest_rates)
         (fresh entries targets plans) = (Ok (), s3)
       ∧ second_lowest_rates s3 = Some NoColumns
       ∧ (merge_zip_and_rate s3).1 = Raise (KeyError "state"))
  ∧ (calculate_slcsp (fresh entries targets plans)).1 = Raise (KeyError "state")
  ∧ slcsp_data (calculate_slcsp (fresh entries targets plans)).2 = unrated targets
  ∧ (∀ plans_file zips_file slcsp_file loaded,
       __init__ plans_file zips_file slcsp_file = Ok loaded →
       typed loaded = Some (fresh entries targets plans) →
       main plans_file zips_file slcsp_file = Some (Raise (KeyError "state"))).
Proof.
  intros entries plans targets e0.
  assert (e0 ∈ entries) as He0 by left.
  assert (silver_rates plans (zip_key e0) ≠ []) as Hne0 by (vm_compute; discriminate).
  assert (∀ e, e ∈ entries → (nunique (silver_rates plans (zip_key e)) ≤ 1)%nat)
    as Hone.
  { assert (nunique (silver_rates plans ("AA", 1)) = 1%nat) as H1
      by (vm_compute; reflexivity).
    assert (nunique (silver_rates plans ("AA", 2)) = 1%nat) as H2
      by (vm_compute; reflexivity).
    intros e He. unfold entries in He.
    rewrite !elem_of_cons, elem_of_nil in He.
    destruct He as [->|[->|[->|[->|[]]]]];
      change (zip_key (entry _ "AA" 1)) with ("AA", 1) ||
      change (zip_key (entry _ "AA" 2)) with ("AA", 2);
      rewrite ?H1, ?H2; lia. }
  split; [exact (conj He0 (conj Hne0 Hone))|].
  exact (single_rate_areas_raise_KeyError entries targets plans e0 He0 Hne0 Hone).
Defined.

(** The files of the scenario with plans that give every rate area a single
    rate load as the object of the witness above. *)
Lemma single_rate_plans_load :
  ∃ loaded,
    __init__ single_rate_plans scenario_zips scenario_slcsp = Ok loaded
    ∧ typed loaded
      = Some (fresh [entry 1 "AA" 1; entry 2 "AA" 2; entry 3 "AA" 1; entry 3 "AA" 2]
                [1; 2; 3]
                [silver "AA" 1 (Qc_of_Z 100); silver "AA" 2 (Qc_of_Z 90)]).
Proof. eexists. split; vm_compute; reflexivity. Qed.

(** C7.  [determine_rate] is documented to determine the SLCSP for each ZIP
    code of the target data, and [get_rate] to return the empty string
    where there is none; the code does not keep one row per target for
    every target input.  Take a freshly loaded object in which some rate
    area of the mapping offers two distinct Silver rates, so that the first
    four stages complete, and a target ZIP code without a mapping row.
    [calculate_slcsp] ends with [IndexError] and leaves every target
    without a rate, also those the mapping lists; the program ends before
    [print_slcsp] and prints no row at all. *)
Theorem unmapped_target_drops_every_row entries targets plans
    (e0 : ZipEntry) (x y : Qc) (z : Z) :
  e0 ∈ entries →
  x ∈ silver_rates plans (zip_key e0) → y ∈ silver_rates plans (zip_key e0) → x ≠ y →
  z ∈ targets → (∀ e, e ∈ entries → zipcode e ≠ z) →
  (resolve_stages (fresh entries targets plans)).1 = Ok ()
  ∧ (calculate_slcsp (fresh entries targets plans)).1 = Raise IndexError
  ∧ slcsp_data (calculate_slcsp (fresh entries targets plans)).2 = unrated targets
  ∧ (∀ plans_file zips_file slcsp_file loaded,
       __init__ plans_file zips_file slcsp_file = Ok loaded →
       typed loaded = Some (fresh entries targets plans) →
       main plans_file zips_file slcsp_file = Some (Raise IndexError)).
Proof.
  intros He0 Hx Hy Hxy Hz Hnone.
  assert (area_rate plans (zip_key e0) ≠ NaN) as Hrate.
  { intros Hnan. apply Hxy. by apply (proj1 (second_lowest_None _) Hnan). }
  assert (some_silver_area entries plans) as Hsome.
  { exists e0. split; [done|]. intros Hnil. rewrite Hnil in Hx.
    by apply elem_of_nil in Hx. }
  assert ((resolve_stages (fresh entries targets plans)).1 = Ok ()) as Hstages.
  { rewrite resolve_stages_fresh_result.
    by destruct (groupby_apply_fresh_rate entries plans e0 He0 Hrate) as [rows ->]. }
  assert (series_apply (resolve entries plans) targets = Raise IndexError) as Happ.
  { destruct (series_apply (resolve entries plans) targets) as [rates|e] eqn:Happ.
    - apply list_elem_of_lookup_1 in Hz as (i & Hi).
      destruct (series_apply_lookup _ _ _ _ _ Happ Hi) as (r & _ & Hr).
      assert (resolve entries plans z = Raise IndexError) as Hraise
        by (by apply resolve_Raise).
      congruence.
    - apply series_apply_Raise in Happ as (z' & _ & Hz').
      by apply resolve_Raise in Hz' as [-> _]. }
  pose proof (calculate_slcsp_run_outcome entries targets plans Hsome) as Hout.
  unfold run_outcome in Hout.
  rewrite decide_False, Happ in Hout.
  2:{ rewrite Forall_forall. intros Hnan. by apply Hrate, Hnan. }
  injection Hout as Hrun Hdata.
  split; [done|]. split; [done|]. split; [done|].
  intros plans_file zips_file slcsp_file loaded Hinit Htyped.
  by apply (main_raises _ _ _ _ _ _ Hinit Htyped).
Qed.

Lemma unmapped_target_drops_every_row_witness :
  let entries := [entry 1 "AA" 1; entry 2 "AA" 2; entry 3 "AA" 1; entry 3 "AA" 2] in
  let plans := [silver "AA" 1 (Qc_of_Z 100); silver "AA" 1 (Qc_of_Z 150);
                silver "AA" 1 (Qc_of_Z 150); silver "AA" 2 (Qc_of_Z 90)] in
  let targets := [1; 99999] in
  let e0 := entry 1 "AA" 1 in
  (e0 ∈ entries
   ∧ Qc_of_Z 100 ∈ silver_rates plans (zip_key e0)
   ∧ Qc_of_Z 150 ∈ silver_rates plans (zip_key e0)
   ∧ Qc_of_Z 100 ≠ Qc_of_Z 150
   ∧ 99999 ∈ targets
   ∧ (∀ e, e ∈ entries → zipcode e ≠ 99999))
  ∧ (resolve_stages (fresh entries targets plans)).1 = Ok ()
  ∧ (calculate_slcsp (fresh entries targets plans)).1 = Raise IndexError
  ∧ slcsp_data (calculate_slcsp (fresh entries targets plans)).2 = unrated targets
  ∧ (∀ plans_file zips_file slcsp_file loaded,
       __init__ plans_file zips_file slcsp_file = Ok loaded →
       typed loaded = Some (fresh entries targets plans) →
       main plans_file zips_file slcsp_file = Some (Raise IndexError)).
Proof.
  intros entries plans targets e0.
  assert (e0 ∈ entries) as He0 by left.
  assert (silver_rates plans (zip_key e0) = [Qc_of_Z 100; Qc_of_Z 150; Qc_of_Z 150])
    as Hrates by (vm_compute; reflexivity).
  assert (Qc_of_Z 100 ∈ silver_rates plans (zip_key e0)) as Hx
    by (rewrite Hrates; left).
  assert (Qc_of_Z 150 ∈ silver_rates plans (zip_key e0)) as Hy
    by (rewrite Hrates; right; left).
  assert (Qc_of_Z 100 ≠ Qc_of_Z 150) as Hxy by discriminate.
  assert (99999 ∈ targets) as Hz by (right; left).
  assert (∀ e, e ∈ entries → zipcode e ≠ 99999) as Hnone.
  { intros e He. unfold entries in He. rewrite !elem_of_cons, elem_of_nil in He.
    destruct He as [->|[->|[->|[->|[]]]]]; discriminate. }
  split; [exact (conj He0 (conj Hx (conj Hy (conj Hxy (conj Hz Hnone)))))|].
  exact (unmapped_target_drops_every_row entries targets plans e0
           (Qc_of_Z 100) (Qc_of_Z 150) 99999 He0 Hx Hy Hxy Hz Hnone).
Defined.

(** The files of the scenario with the target 99999 added load as the
    object of the witness above. *)
Lemma unmapped_slcsp_loads :
  ∃ loaded,
    __init__ scenario_plans scenario_zips unmapped_slcsp = Ok loaded
    ∧ typed loaded
      = Some (fresh [entry 1 "AA" 1; entry 2 "AA" 2; entry 3 "AA" 1; entry 3 "AA" 2]
                [1; 99999]
                [silver "AA" 1 (Qc_of_Z 100); silver "AA" 1 (Qc_of_Z 150);
                 silver "AA" 1 (Qc_of_Z 150); silver "AA" 2 (Qc_of_Z 90)]).
Proof. eexists. split; vm_compute; reflexivity. Qed.
